(** * memory_manager: a tracker of heap blocks over malloc, calloc, realloc, free

    A shallow embedding of [src/manager.c] and [include/manager.h].

    The C program keeps a singly linked list of [struct memory_address]
    nodes behind a [struct memory_manager]; everything it does is pointer
    manipulation on the C heap.  The embedding therefore carries an explicit
    heap: a finite map from addresses to allocated blocks, each block holding
    the struct members that have been written to it.  Dereferencing a pointer
    that is not a live allocation, reading a member that was never written,
    freeing a pointer that is not live and overflowing a signed [int] are
    undefined behaviour in C and end the run in [Undefined].

    The C library allocator is outside the program.  Its answers are read
    from an oracle stored in the world: the list of addresses it will offer
    to the coming requests, [NULL] standing for a refusal. *)

From stdpp Require Import gmap strings list.

Open Scope Z_scope.

(** ** Values and memory *)

(** A pointer is an address; [NULL] is address 0. *)
Abbreviation ptr := Z.
Definition NULL : ptr := 0.

(** The members of the two structs:
    [struct memory_address { void *addr; struct memory_address *next; }] and
    [struct memory_manager { head; mm_add; mm_free; mm_free_all }]. *)
Inductive field : Set :=
| f_addr | f_next
| f_head | f_mm_add | f_mm_free | f_mm_free_all.

(** The functions of [manager.c] whose address is stored in a manager. *)
Inductive fn : Set := Fn_mm_add | Fn_mm_free | Fn_mm_free_all.

(** What a struct member holds: a data pointer or a function pointer. *)
Inductive val : Set :=
| VPtr (p : ptr)
| VFn (f : fn).

#[global] Instance field_eq_dec : EqDecision field.
Proof. solve_decision. Defined.

#[global] Instance fn_eq_dec : EqDecision fn.
Proof. solve_decision. Defined.

#[global] Instance val_eq_dec : EqDecision val.
Proof. solve_decision. Defined.

Definition field_code (f : field) : nat :=
  match f with
  | f_addr => 0 | f_next => 1 | f_head => 2
  | f_mm_add => 3 | f_mm_free => 4 | f_mm_free_all => 5
  end%nat.

Definition field_of_code (n : nat) : field :=
  match n with
  | 0 => f_addr | 1 => f_next | 2 => f_head
  | 3 => f_mm_add | 4 => f_mm_free | _ => f_mm_free_all
  end%nat.

#[global] Instance field_countable : Countable field.
Proof.
  refine (inj_countable' field_code field_of_code _).
  intros f. destruct f; reflexivity.
Defined.

(** An allocated block: the size it was requested with and the members
    written so far.  The bytes of a caller's block are not modelled: the
    program never reads them. *)
Record block : Type := Block {
  b_size : Z;
  b_fields : gmap field val
}.

(** One line on the error stream, as [alloc_err] prints it:
    ["Error (file @ func:line code) - strerror(code)"]. *)
Record diag : Type := Diag {
  d_file : string;
  d_func : string;
  d_line : Z;
  d_code : Z
}.

(** The state of the process the program runs in. *)
Record world : Type := World {
  heap : gmap Z block;      (* the live allocations *)
  errno : Z;                (* <errno.h> *)
  oracle : list Z;          (* the allocator's coming answers *)
  stderr : list diag;       (* what alloc_err has printed, oldest first *)
  frees : list Z            (* the arguments of the calls to free, oldest first *)
}.

Definition set_heap (h : gmap Z block) (w : world) : world :=
  World h (errno w) (oracle w) (stderr w) (frees w).
Definition set_errno (e : Z) (w : world) : world :=
  World (heap w) e (oracle w) (stderr w) (frees w).
Definition set_oracle (o : list Z) (w : world) : world :=
  World (heap w) (errno w) o (stderr w) (frees w).
Definition set_stderr (s : list diag) (w : world) : world :=
  World (heap w) (errno w) (oracle w) s (frees w).
Definition set_frees (l : list Z) (w : world) : world :=
  World (heap w) (errno w) (oracle w) (stderr w) l.

(** ** Computations *)

(** The result of running a piece of the program: it returns [a] in world
    [w], or it has undefined behaviour, or the fuel given to a loop or to a
    recursion ran out before it ended. *)
Inductive outcome (A : Type) : Type :=
| Done (a : A) (w : world)
| Undefined
| OutOfFuel.
Arguments Done {A} a w.
Arguments Undefined {A}.
Arguments OutOfFuel {A}.

Definition M (A : Type) : Type := world -> outcome A.

Definition ret {A} (a : A) : M A := fun w => Done a w.

Definition bind {A B} (c : M A) (k : A -> M B) : M B :=
  fun w =>
    match c w with
    | Done a w' => k a w'
    | Undefined => Undefined
    | OutOfFuel => OutOfFuel
    end.

Definition undefined {A} : M A := fun _ => Undefined.
Definition out_of_fuel {A} : M A := fun _ => OutOfFuel.

Declare Scope prog_scope.
Delimit Scope prog_scope with prog.
Notation "x <- c ;; k" := (bind c (fun x => k))
  (at level 100, c at next level, right associativity) : prog_scope.
Notation "c ;; k" := (bind c (fun _ => k))
  (at level 100, right associativity) : prog_scope.
Open Scope prog_scope.

(** ** The C library *)

Definition ENOMEM : Z := 12.
Definition INT_MAX : Z := 2147483647.
Definition SIZE_MAX : Z := 18446744073709551615.

(** [sizeof(struct memory_address)] and [sizeof(struct memory_manager)] on
    an LP64 target: two and four pointers. *)
Definition sizeof_memory_address : Z := 16.
Definition sizeof_memory_manager : Z := 32.

(** An address the allocator may hand out: not [NULL] and not live. *)
Definition usable (h : gmap Z block) (p : ptr) : bool :=
  negb (p =? NULL) && bool_decide (h !! p = None).

(** The next answer of the allocator and the rest of the oracle. *)
Definition next_answer (w : world) : ptr * list Z :=
  match oracle w with
  | [] => (NULL, [])
  | p :: o => (p, o)
  end.

(** A refused request: [NULL] with [errno] set to [ENOMEM]. *)
Definition refuse (o : list Z) : M ptr :=
  fun w => Done NULL (set_errno ENOMEM (set_oracle o w)).

(** [malloc(size)]: a new block with nothing written to it, or [NULL]. *)
Definition malloc (size : Z) : M ptr :=
  fun w =>
    let '(p, o) := next_answer w in
    if usable (heap w) p
    then Done p (set_heap (<[p := Block size ∅]> (heap w)) (set_oracle o w))
    else refuse o w.

(** [calloc(count, size)]: as [malloc(count * size)]; the request fails when
    the product does not fit [size_t]. *)
Definition calloc (count size : Z) : M ptr :=
  fun w =>
    if SIZE_MAX <? count * size
    then refuse (oracle w) w
    else malloc (count * size) w.

(** [realloc(p, size)]: [malloc(size)] when [p] is [NULL]; undefined when
    [p] is not a live allocation; otherwise the block is resized where it is
    (the allocator answers [p]), or moved with its contents to a new address
    and the old one released, or the request is refused and the block is
    left as it was.

    A [size] of 0 is left to the implementation by the C standard, and the
    answer of the oracle stands for the implementation too.  Besides the
    three outcomes above, the implementation may release the block and
    return [NULL] without writing [errno], as glibc does: that is the answer
    [NULL] (or an oracle with nothing left).  An answer that is the address
    of another live allocation is, as for any size, a refusal that leaves
    the block. *)
Definition realloc (p : ptr) (size : Z) : M ptr :=
  fun w =>
    if p =? NULL then malloc size w
    else
      match heap w !! p with
      | None => Undefined
      | Some b =>
          let '(q, o) := next_answer w in
          if q =? p
          then Done p (set_heap (<[p := Block size (b_fields b)]> (heap w))
                                (set_oracle o w))
          else if usable (heap w) q
          then Done q (set_heap (<[q := Block size (b_fields b)]>
                                   (delete p (heap w)))
                                (set_oracle o w))
          else if (size =? 0) && (q =? NULL)
          then Done NULL (set_heap (delete p (heap w)) (set_oracle o w))
          else refuse o w
      end.

(** [free(p)]: nothing for [NULL]; releases a live allocation; undefined
    otherwise (a double free, or a pointer that malloc never returned). *)
Definition free (p : ptr) : M unit :=
  fun w =>
    let w' := set_frees (frees w ++ [p]) w in
    if p =? NULL then Done tt w'
    else
      match heap w !! p with
      | None => Undefined
      | Some _ => Done tt (set_heap (delete p (heap w)) w')
      end.

(** ** Struct members *)

(** Reading [p->f]. *)
Definition load (p : ptr) (f : field) : M val :=
  fun w =>
    match heap w !! p with
    | None => Undefined
    | Some b =>
        match b_fields b !! f with
        | None => Undefined
        | Some v => Done v w
        end
    end.

(** Reading a member of pointer type. *)
Definition load_ptr (p : ptr) (f : field) : M ptr :=
  v <- load p f ;;
  match v with
  | VPtr q => ret q
  | VFn _ => undefined
  end.

(** Reading a member of function pointer type. *)
Definition load_fn (p : ptr) (f : field) : M fn :=
  v <- load p f ;;
  match v with
  | VFn g => ret g
  | VPtr _ => undefined
  end.

(** Writing [p->f = v]. *)
Definition store (p : ptr) (f : field) (v : val) : M unit :=
  fun w =>
    match heap w !! p with
    | None => Undefined
    | Some b =>
        Done tt (set_heap (<[p := Block (b_size b) (<[f := v]> (b_fields b))]>
                             (heap w)) w)
    end.

(** ** manager.c *)

(** [alloc_err(file, func, line, err_code)]: one line on [stderr]. *)
Definition alloc_err (file func : string) (line : Z) (err_code : Z) : M unit :=
  fun w => Done tt (set_stderr (stderr w ++ [Diag file func line err_code]) w).

(** Reading [errno]. *)
Definition get_errno : M Z := fun w => Done (errno w) w.

(** [init_mem_manager]. *)
Definition init_mem_manager : M ptr :=
  mm <- malloc sizeof_memory_manager ;;
  if mm =? NULL then ret mm
  else
    store mm f_head (VPtr NULL) ;;
    store mm f_mm_add (VFn Fn_mm_add) ;;
    store mm f_mm_free (VFn Fn_mm_free) ;;
    store mm f_mm_free_all (VFn Fn_mm_free_all) ;;
    ret mm.

(** The loop of [mm_add]:
    [while (ma_cur->next != NULL) ma_cur = ma_cur->next;]
    It returns the last value of [ma_cur]. *)
Fixpoint mm_add_loop (fuel : nat) (ma_cur : ptr) : M ptr :=
  match fuel with
  | O => out_of_fuel
  | S fuel' =>
      n <- load_ptr ma_cur f_next ;;
      if n =? NULL then ret ma_cur else mm_add_loop fuel' n
  end.

(** [mm_add(mem_manager, mem)]. *)
Definition mm_add (fuel : nat) (mem_manager mem : ptr) : M ptr :=
  ma <- malloc sizeof_memory_address ;;
  if ma =? NULL then ret NULL
  else
    store ma f_addr (VPtr mem) ;;
    store ma f_next (VPtr NULL) ;;
    head <- load_ptr mem_manager f_head ;;
    if head =? NULL
    then
      store mem_manager f_head (VPtr ma) ;;
      load_ptr ma f_addr
    else
      ma_cur <- mm_add_loop fuel head ;;
      store ma_cur f_next (VPtr ma) ;;
      load_ptr ma f_addr.

(** The loop of [mm_free]:
    [while (ma && ma->addr != mem) { ma_prev = ma; ma = ma->next; }]
    It returns the last values of [ma] and [ma_prev]. *)
Fixpoint mm_free_loop (fuel : nat) (mem : ptr) (ma ma_prev : ptr)
  : M (ptr * ptr) :=
  match fuel with
  | O => out_of_fuel
  | S fuel' =>
      if ma =? NULL then ret (ma, ma_prev)
      else
        a <- load_ptr ma f_addr ;;
        if a =? mem then ret (ma, ma_prev)
        else
          n <- load_ptr ma f_next ;;
          mm_free_loop fuel' mem n ma
  end.

(** [mm_free(mem_manager, mem)]. *)
Definition mm_free (fuel : nat) (mem_manager mem : ptr) : M Z :=
  head <- load_ptr mem_manager f_head ;;
  r <- mm_free_loop fuel mem head NULL ;;
  let '(ma, ma_prev) := r in
  if ma =? NULL then ret (-1)
  else
    head' <- load_ptr mem_manager f_head ;;
    (if ma =? head'
     then
       n <- load_ptr ma f_next ;;
       store mem_manager f_head (VPtr n)
     else
       n <- load_ptr ma f_next ;;
       store ma_prev f_next (VPtr n)) ;;
    a <- load_ptr ma f_addr ;;
    free a ;;
    free ma ;;
    ret 0.

(** [mm_free_recurse(ma)].  The count is a C [int]: adding one to [INT_MAX]
    is undefined. *)
Fixpoint mm_free_recurse (fuel : nat) (ma : ptr) : M Z :=
  match fuel with
  | O => out_of_fuel
  | S fuel' =>
      if ma =? NULL then ret 0
      else
        n <- load_ptr ma f_next ;;
        r <- mm_free_recurse fuel' n ;;
        if INT_MAX <=? r then undefined
        else
          let m_freed := 1 + r in
          a <- load_ptr ma f_addr ;;
          free a ;;
          free ma ;;
          ret m_freed
  end.

(** [mm_free_all(mem_manager)]. *)
Definition mm_free_all (fuel : nat) (mem_manager : ptr) : M Z :=
  head <- load_ptr mem_manager f_head ;;
  m_freed <- mm_free_recurse fuel head ;;
  ret m_freed.

(** [mm_find_in_list(mem_manager, mem)]. *)
Fixpoint mm_find_loop (fuel : nat) (mem : ptr) (ma : ptr) : M ptr :=
  match fuel with
  | O => out_of_fuel
  | S fuel' =>
      if ma =? NULL then ret ma
      else
        a <- load_ptr ma f_addr ;;
        if a =? mem then ret ma
        else
          n <- load_ptr ma f_next ;;
          mm_find_loop fuel' mem n
  end.

Definition mm_find_in_list (fuel : nat) (mem_manager mem : ptr) : M ptr :=
  head <- load_ptr mem_manager f_head ;;
  mm_find_loop fuel mem head.

(** Calls through the function pointers of a manager.  A member that does
    not hold the address of a function of the called type is outside the
    program: the call is undefined. *)
Definition call_mm_add (f : fn) (fuel : nat) (mem_manager mem : ptr) : M ptr :=
  match f with
  | Fn_mm_add => mm_add fuel mem_manager mem
  | _ => undefined
  end.

Definition call_mm_free_all (f : fn) (fuel : nat) (mem_manager : ptr) : M Z :=
  match f with
  | Fn_mm_free_all => mm_free_all fuel mem_manager
  | _ => undefined
  end.

Definition call_mm_free (f : fn) (fuel : nat) (mem_manager mem : ptr) : M Z :=
  match f with
  | Fn_mm_free => mm_free fuel mem_manager mem
  | _ => undefined
  end.

(** [free_mem_manager(mem_manager)]. *)
Definition free_mem_manager (fuel : nat) (mem_manager : ptr) : M Z :=
  if mem_manager =? NULL then ret (-1)
  else
    f <- load_fn mem_manager f_mm_free_all ;;
    call_mm_free_all f fuel mem_manager ;;
    free mem_manager ;;
    ret 0.

(** [mm_malloc(size, mem_manager, file, func, line)]. *)
Definition mm_malloc (fuel : nat) (size : Z) (mem_manager : ptr)
  (file func : string) (line : Z) : M ptr :=
  mem <- malloc size ;;
  if mem =? NULL
  then
    e <- get_errno ;;
    alloc_err file func line e ;;
    ret NULL
  else
    (if mem_manager =? NULL then ret tt
     else
       f <- load_fn mem_manager f_mm_add ;;
       call_mm_add f fuel mem_manager mem ;;
       ret tt) ;;
    ret mem.

(** [mm_calloc(count, size, mem_manager, file, func, line)]. *)
Definition mm_calloc (fuel : nat) (count size : Z) (mem_manager : ptr)
  (file func : string) (line : Z) : M ptr :=
  mem <- calloc count size ;;
  if mem =? NULL
  then
    e <- get_errno ;;
    alloc_err file func line e ;;
    ret NULL
  else
    (if mem_manager =? NULL then ret tt
     else
       f <- load_fn mem_manager f_mm_add ;;
       call_mm_add f fuel mem_manager mem ;;
       ret tt) ;;
    ret mem.

(** [mm_realloc(ptr, size, mem_manager, file, func, line)]. *)
Definition mm_realloc (fuel : nat) (p : ptr) (size : Z) (mem_manager : ptr)
  (file func : string) (line : Z) : M ptr :=
  mem <- realloc p size ;;
  if mem =? NULL
  then
    e <- get_errno ;;
    alloc_err file func line e ;;
    ret NULL
  else
    (if mem_manager =? NULL then ret tt
     else
       ma <- mm_find_in_list fuel mem_manager p ;;
       if ma =? NULL then ret tt
       else store ma f_addr (VPtr mem)) ;;
    ret mem.

(** ** The registry as a sequence of records *)

(** The member [f] of the block at [p], when [p] is live and [f] written. *)
Definition field_at (h : gmap Z block) (p : ptr) (f : field) : option val :=
  match h !! p with
  | None => None
  | Some b => b_fields b !! f
  end.

(** The heap after [p->f = v]. *)
Definition heap_store (h : gmap Z block) (p : ptr) (f : field) (v : val)
  : gmap Z block :=
  match h !! p with
  | None => h
  | Some b => <[p := Block (b_size b) (<[f := v]> (b_fields b))]> h
  end.

(** A record of the registry: the address of its [struct memory_address]
    and the address stored in its [addr] member. *)
Abbreviation record := (Z * Z)%type.

(** [seg h p l e]: following [next] from [p] in heap [h] walks through the
    nodes of [l], in order, and arrives at [e]. *)
Fixpoint seg (h : gmap Z block) (p : ptr) (l : list record) (e : ptr) : Prop :=
  match l with
  | [] => p = e
  | (q, a) :: l' =>
      p = q /\ q <> NULL /\
      field_at h q f_addr = Some (VPtr a) /\
      exists n, field_at h q f_next = Some (VPtr n) /\ seg h n l' e
  end.

(** A list that ends in [NULL]. *)
Definition lseg (h : gmap Z block) (p : ptr) (l : list record) : Prop :=
  seg h p l NULL.

(** A manager as [init_mem_manager] builds it, with [head] as its list. *)
Definition manager_at (h : gmap Z block) (m : ptr) (head : ptr) : Prop :=
  m <> NULL /\
  field_at h m f_head = Some (VPtr head) /\
  field_at h m f_mm_add = Some (VFn Fn_mm_add) /\
  field_at h m f_mm_free = Some (VFn Fn_mm_free) /\
  field_at h m f_mm_free_all = Some (VFn Fn_mm_free_all).

(** [registry h m l]: in heap [h], [m] is a manager whose list holds exactly
    the records [l], first to last. *)
Definition registry (h : gmap Z block) (m : ptr) (l : list record) : Prop :=
  exists head, manager_at h m head /\ lseg h head l /\ m ∉ l.*1.

(** The blocks the records refer to are live allocations, each referred to
    once, and none of them is the manager or a node of the list. *)
Definition blocks_live (h : gmap Z block) (m : ptr) (l : list record) : Prop :=
  NoDup l.*2 /\
  forall a, a ∈ l.*2 -> a <> NULL /\ is_Some (h !! a) /\ a <> m /\ a ∉ l.*1.

(** The node of the last record of [l], or [d] for the empty list. *)
Fixpoint last_node (l : list record) (d : ptr) : ptr :=
  match l with
  | [] => d
  | (q, _) :: l' => last_node l' q
  end.

(** The node before the first record of [l] that holds [mem] ([d] when that
    record is the first one), or the last node when no record holds it. *)
Fixpoint prev_match (mem : ptr) (l : list record) (d : ptr) : ptr :=
  match l with
  | [] => d
  | (q, a) :: l' => if a =? mem then d else prev_match mem l' q
  end.

(** The node of the first record of [l] that holds [mem], [NULL] if none. *)
Fixpoint first_match (mem : ptr) (l : list record) : ptr :=
  match l with
  | [] => NULL
  | (q, a) :: l' => if a =? mem then q else first_match mem l'
  end.

(** [l] without its first record that holds [mem]. *)
Fixpoint remove_first (mem : ptr) (l : list record) : list record :=
  match l with
  | [] => []
  | (q, a) :: l' => if a =? mem then l' else (q, a) :: remove_first mem l'
  end.

(** [l] with [new] stored in its first record that holds [old]. *)
Fixpoint retarget (old new : ptr) (l : list record) : list record :=
  match l with
  | [] => []
  | (q, a) :: l' =>
      if a =? old then (q, new) :: l' else (q, a) :: retarget old new l'
  end.

(** The arguments of the calls to [free] that [mm_free_recurse] makes on the
    records [l]: the tail first, then the block and the node of the head. *)
Fixpoint release_order (l : list record) : list Z :=
  match l with
  | [] => []
  | (q, a) :: l' => release_order l' ++ [a; q]
  end.

(** The heap after those calls. *)
Fixpoint release_all (h : gmap Z block) (l : list record) : gmap Z block :=
  match l with
  | [] => h
  | (q, a) :: l' => delete q (delete a (release_all h l'))
  end.

(** Decision procedures for the predicates above, for concrete heaps. *)
Definition is_ptr (o : option val) (p : ptr) : bool :=
  match o with
  | Some (VPtr q) => q =? p
  | _ => false
  end.

Definition is_fn (o : option val) (f : fn) : bool :=
  match o with
  | Some (VFn g) => bool_decide (g = f)
  | _ => false
  end.

Fixpoint lsegb (h : gmap Z block) (p : ptr) (l : list record) : bool :=
  match l with
  | [] => p =? NULL
  | (q, a) :: l' =>
      (p =? q) && negb (q =? NULL) && is_ptr (field_at h q f_addr) a &&
      match field_at h q f_next with
      | Some (VPtr n) => lsegb h n l'
      | _ => false
      end
  end.

Definition registryb (h : gmap Z block) (m : ptr) (l : list record) : bool :=
  match field_at h m f_head with
  | Some (VPtr head) =>
      negb (m =? NULL) &&
      is_fn (field_at h m f_mm_add) Fn_mm_add &&
      is_fn (field_at h m f_mm_free) Fn_mm_free &&
      is_fn (field_at h m f_mm_free_all) Fn_mm_free_all &&
      lsegb h head l && bool_decide (m ∉ l.*1)
  | _ => false
  end.

Definition blocks_liveb (h : gmap Z block) (m : ptr) (l : list record) : bool :=
  bool_decide (NoDup l.*2) &&
  forallb (fun a => negb (a =? NULL) && bool_decide (is_Some (h !! a)) &&
                    negb (a =? m) && bool_decide (a ∉ l.*1)) l.*2.

(** ** Runs of the program's own operations, used by the examples *)

Definition world0 (o : list Z) : world := World ∅ 0 o [] [].

Definition world_of {A} (o : outcome A) : world :=
  match o with Done _ w => w | _ => world0 [] end.

(** A sequence of inserts with no release in between: [mm_add] called on
    each address of [mems] in turn, its results dropped. *)
Fixpoint mm_add_all (fuel : nat) (mem_manager : ptr) (mems : list Z) : M unit :=
  match mems with
  | [] => ret tt
  | mem :: mems' =>
      mm_add fuel mem_manager mem ;;
      mm_add_all fuel mem_manager mems'
  end.

(** Scenario 1 of the spec: create the tracker, allocate two tracked blocks,
    release the first one, destroy the tracker. *)
Definition scenario_1 : M (Z * Z) :=
  mm <- init_mem_manager ;;
  b1 <- mm_malloc 4 64 mm "main.c" "main" 10 ;;
  b2 <- mm_malloc 4 128 mm "main.c" "main" 11 ;;
  r <- mm_free 4 mm b1 ;;
  s <- free_mem_manager 4 mm ;;
  ret (r, s).

(** Scenario 2 of the spec: a tracked [mm_calloc], then [mm_realloc]; the
    result is what [mm_find_in_list] returns for the old and for the new
    address. *)
Definition scenario_2 : M (Z * Z) :=
  mm <- init_mem_manager ;;
  b <- mm_calloc 4 10 4 mm "main.c" "main" 10 ;;
  b2 <- mm_realloc 4 b 80 mm "main.c" "main" 11 ;;
  old <- mm_find_in_list 4 mm b ;;
  new <- mm_find_in_list 4 mm b2 ;;
  ret (old, new).

(** The world after [mm = init_mem_manager(); mm_malloc(64, mm, ...);
    mm_malloc(128, mm, ...);] where the allocator answers 100, 200, 300,
    400, 500 and has 600, 700 to offer next: the manager is at 100 and its
    records are (node 300, block 200) and (node 500, block 400). *)
Definition w_two : world :=
  world_of ((mm <- init_mem_manager ;;
             mm_malloc 4 64 mm "main.c" "main" 10 ;;
             mm_malloc 4 128 mm "main.c" "main" 11 ;;
             ret mm) (world0 [100; 200; 300; 400; 500; 600; 700])).

(** The world after [mm = init_mem_manager(); b = mm_malloc(64, NULL, ...);
    mm->mm_add(mm, b); mm->mm_add(mm, b);]: the manager is at 100 and the
    block 200 is held by two records, at nodes 300 and 400.  The allocator
    has 500 to offer next. *)
Definition w_dup : world :=
  world_of ((mm <- init_mem_manager ;;
             b <- mm_malloc 4 64 NULL "main.c" "main" 10 ;;
             mm_add 4 mm b ;;
             mm_add 4 mm b ;;
             ret mm) (world0 [100; 200; 300; 400; 500])).

(** The world after [mm = init_mem_manager();] with 200 and 300 to come. *)
Definition w_init : world :=
  world_of (init_mem_manager (world0 [100; 200; 300])).

(** The world after [mm = init_mem_manager(); b = mm_malloc(64, NULL, ...);]:
    the manager is at 100 and holds no record, the block 200 is allocated
    and not tracked, and the allocator has 300, 400, 500 to offer next. *)
Definition w_block : world :=
  world_of ((mm <- init_mem_manager ;;
             mm_malloc 4 64 NULL "main.c" "main" 10 ;;
             ret mm) (world0 [100; 200; 300; 400; 500])).

(** [w_two] with an allocator that has one address left to offer. *)
Definition w_last : world := set_oracle [600] w_two.

(** A world where the allocator has nothing to offer. *)
Definition w_exhausted : world := set_oracle [] w_two.

(** The records of [w_two]. *)
Definition two_records : list record := [(300, 200); (500, 400)].

(** ** Clients of the tracker *)

(** A registry in good order: the records of manager [m] are [l], and their
    blocks are live, pairwise distinct and apart from the registry's own
    memory. *)
Definition valid (w : world) (m : ptr) (l : list record) : Prop :=
  registry (heap w) m l /\ blocks_live (heap w) m l.

(** One call of a client that allocates, resizes and releases its blocks
    through the manager [m] only: [mm_malloc] and [mm_calloc] with the
    manager, [mm_realloc] of a block the manager tracks to a size that is
    not 0, [mm_free] of any address.  Each call is given fuel for the list
    at hand and returns. *)
Inductive client_step (m : ptr) (w w' : world) : Prop :=
| step_malloc (fuel : nat) (size : Z) (file func : string) (line : Z)
    (p : ptr) (l : list record) :
    registry (heap w) m l -> (length l <= fuel)%nat ->
    mm_malloc fuel size m file func line w = Done p w' ->
    client_step m w w'
| step_calloc (fuel : nat) (count size : Z) (file func : string) (line : Z)
    (p : ptr) (l : list record) :
    registry (heap w) m l -> (length l <= fuel)%nat ->
    mm_calloc fuel count size m file func line w = Done p w' ->
    client_step m w w'
| step_realloc (fuel : nat) (p : ptr) (size : Z) (file func : string)
    (line : Z) (q : ptr) (l : list record) :
    registry (heap w) m l -> (length l < fuel)%nat -> p ∈ l.*2 ->
    size <> 0 ->
    mm_realloc fuel p size m file func line w = Done q w' ->
    client_step m w w'
| step_free (fuel : nat) (mem : ptr) (r : Z) (l : list record) :
    registry (heap w) m l -> (length l < fuel)%nat ->
    mm_free fuel m mem w = Done r w' ->
    client_step m w w'.

(** * Properties *)

(** ** The primitives *)

Section Primitives.
Context {A B : Type}.

Lemma bind_done (c : M A) (k : A -> M B) w a w' :
  c w = Done a w' -> bind c k w = k a w'.
Proof. intros H. unfold bind. rewrite H. reflexivity. Qed.

Lemma bind_undefined (c : M A) (k : A -> M B) w :
  c w = Undefined -> bind c k w = Undefined.
Proof. intros H. unfold bind. rewrite H. reflexivity. Qed.

Lemma bind_ret (a : A) (k : A -> M B) w : bind (ret a) k w = k a w.
Proof. reflexivity. Qed.

Lemma bind_assoc {C} (c : M A) (k1 : A -> M B) (k2 : B -> M C) w :
  bind (bind c k1) k2 w = bind c (fun a => bind (k1 a) k2) w.
Proof. unfold bind. destruct (c w); reflexivity. Qed.
End Primitives.

Lemma field_at_live h p f v : field_at h p f = Some v -> is_Some (h !! p).
Proof. unfold field_at. destruct (h !! p); [eauto | discriminate]. Qed.

Lemma field_at_dead h p f : h !! p = None -> field_at h p f = None.
Proof. unfold field_at. intros ->. reflexivity. Qed.

Lemma field_at_insert_ne h p b p' f :
  p <> p' -> field_at (<[p := b]> h) p' f = field_at h p' f.
Proof. intros Hne. unfold field_at. rewrite lookup_insert_ne; done. Qed.

Lemma field_at_delete_ne h p p' f :
  p <> p' -> field_at (delete p h) p' f = field_at h p' f.
Proof. intros Hne. unfold field_at. rewrite lookup_delete_ne; done. Qed.

Lemma field_at_store_eq h p f v :
  is_Some (h !! p) -> field_at (heap_store h p f v) p f = Some v.
Proof.
  intros [b Hb]. unfold heap_store, field_at. rewrite Hb.
  rewrite lookup_insert_eq. simpl. apply lookup_insert_eq.
Qed.

Lemma field_at_store_other h p f v f' :
  f <> f' -> field_at (heap_store h p f v) p f' = field_at h p f'.
Proof.
  intros Hne. unfold heap_store, field_at.
  destruct (h !! p) as [b|] eqn:Hb; [| rewrite Hb; reflexivity].
  rewrite lookup_insert_eq. simpl. rewrite lookup_insert_ne; done.
Qed.

Lemma field_at_store_ne h p f v p' f' :
  p <> p' -> field_at (heap_store h p f v) p' f' = field_at h p' f'.
Proof.
  intros Hne. unfold heap_store.
  destruct (h !! p) as [b|] eqn:Hb; [| reflexivity].
  apply field_at_insert_ne; done.
Qed.

Lemma heap_store_lookup_ne h p f v x :
  p <> x -> heap_store h p f v !! x = h !! x.
Proof.
  intros Hne. unfold heap_store.
  destruct (h !! p); [apply lookup_insert_ne; done | reflexivity].
Qed.

Lemma heap_store_live h p f v x :
  is_Some (heap_store h p f v !! x) <-> is_Some (h !! x).
Proof.
  unfold heap_store. destruct (h !! p) as [b|] eqn:Hb; [| reflexivity].
  destruct (decide (p = x)) as [->|Hne].
  - rewrite lookup_insert_eq, Hb. split; eauto.
  - rewrite lookup_insert_ne by done. reflexivity.
Qed.

Lemma load_done w p f v :
  field_at (heap w) p f = Some v -> load p f w = Done v w.
Proof.
  unfold field_at, load. destruct (heap w !! p); [| discriminate].
  intros ->. reflexivity.
Qed.

Lemma load_ptr_done w p f q :
  field_at (heap w) p f = Some (VPtr q) -> load_ptr p f w = Done q w.
Proof.
  intros H. unfold load_ptr. rewrite (bind_done _ _ _ _ _ (load_done _ _ _ _ H)).
  reflexivity.
Qed.

Lemma load_fn_done w p f g :
  field_at (heap w) p f = Some (VFn g) -> load_fn p f w = Done g w.
Proof.
  intros H. unfold load_fn. rewrite (bind_done _ _ _ _ _ (load_done _ _ _ _ H)).
  reflexivity.
Qed.

Lemma load_ptr_dead w p f :
  heap w !! p = None -> load_ptr p f w = Undefined.
Proof. intros H. unfold load_ptr, bind, load. rewrite H. reflexivity. Qed.

Lemma store_done w p f v :
  is_Some (heap w !! p) ->
  store p f v w = Done tt (set_heap (heap_store (heap w) p f v) w).
Proof.
  intros [b Hb]. unfold store, heap_store. rewrite Hb. reflexivity.
Qed.

Lemma free_done w p :
  p <> NULL -> is_Some (heap w !! p) ->
  free p w = Done tt (set_heap (delete p (heap w))
                               (set_frees (frees w ++ [p]) w)).
Proof.
  intros Hp [b Hb]. unfold free.
  destruct (Z.eqb_spec p NULL) as [Heq0 | _]; [done |]. rewrite Hb. reflexivity.
Qed.

Lemma free_dead w p :
  p <> NULL -> heap w !! p = None -> free p w = Undefined.
Proof.
  intros Hp Hb. unfold free.
  destruct (Z.eqb_spec p NULL) as [Heq0 | _]; [done |]. rewrite Hb. reflexivity.
Qed.

Lemma usable_true h p : usable h p = true <-> p <> NULL /\ h !! p = None.
Proof.
  unfold usable. rewrite andb_true_iff, negb_true_iff, Z.eqb_neq.
  rewrite bool_decide_eq_true. reflexivity.
Qed.

Lemma malloc_grant w p o size :
  oracle w = p :: o -> usable (heap w) p = true ->
  malloc size w
  = Done p (set_heap (<[p := Block size ∅]> (heap w)) (set_oracle o w)).
Proof.
  intros Ho Hu. unfold malloc, next_answer. rewrite Ho, Hu. reflexivity.
Qed.

Lemma malloc_refuse w size :
  usable (heap w) (next_answer w).1 = false ->
  malloc size w
  = Done NULL (set_errno ENOMEM (set_oracle (next_answer w).2 w)).
Proof.
  intros Hu. unfold malloc. destruct (next_answer w) as [p o]. simpl in *.
  rewrite Hu. reflexivity.
Qed.

(** ** List segments *)

Lemma seg_frame h h' l : forall p e,
  (forall q, q ∈ l.*1 ->
     field_at h' q f_addr = field_at h q f_addr /\
     field_at h' q f_next = field_at h q f_next) ->
  seg h p l e -> seg h' p l e.
Proof.
  induction l as [|[q a] l IH]; intros p e Hfr Hs; simpl in Hs |- *; [done |].
  destruct Hs as (-> & Hq & Ha & n & Hn & Hs).
  destruct (Hfr q) as [Ea En]; [rewrite fmap_cons; apply elem_of_cons; auto |].
  repeat split; try done; try congruence.
  exists n. split; [congruence |]. apply IH; [| done].
  intros x Hx. apply Hfr. rewrite fmap_cons. apply elem_of_cons. auto.
Qed.

Lemma seg_app h l1 l2 : forall p e,
  seg h p (l1 ++ l2) e <-> exists mid, seg h p l1 mid /\ seg h mid l2 e.
Proof.
  induction l1 as [|[q a] l1 IH]; intros p e; simpl.
  - split; [intros H; exists p; done | intros (mid & -> & H); done].
  - split.
    + intros (-> & Hq & Ha & n & Hn & Hs). apply IH in Hs as (mid & H1 & H2).
      exists mid. repeat split; try done. exists n. done.
    + intros (mid & (-> & Hq & Ha & n & Hn & H1) & H2).
      repeat split; try done. exists n. split; [done |]. apply IH. eauto.
Qed.

Lemma seg_live h l : forall p e q,
  seg h p l e -> q ∈ l.*1 -> q <> NULL /\ is_Some (h !! q).
Proof.
  induction l as [|[x a] l IH]; intros p e q Hs Hq; simpl in Hs.
  - apply elem_of_nil in Hq. done.
  - destruct Hs as (-> & Hx & Ha & n & Hn & Hs).
    rewrite fmap_cons in Hq. apply elem_of_cons in Hq as [-> | Hq].
    + split; [done |]. eapply field_at_live; done.
    + eapply IH; done.
Qed.

Lemma lseg_functional h l1 : forall l2 p,
  lseg h p l1 -> lseg h p l2 -> l1 = l2.
Proof.
  unfold lseg.
  induction l1 as [|[q a] l1 IH]; intros [|[q' a'] l2] p H1 H2; simpl in *.
  - done.
  - destruct H2 as (-> & Hq & _). congruence.
  - destruct H1 as (-> & Hq & _). congruence.
  - destruct H1 as (-> & Hq & Ha & n & Hn & H1).
    destruct H2 as (<- & _ & Ha' & n' & Hn' & H2).
    assert (a = a') as <- by congruence.
    assert (n = n') as <- by congruence.
    f_equal. eapply IH; done.
Qed.

Lemma lseg_NoDup h l : forall p, lseg h p l -> NoDup l.*1.
Proof.
  induction l as [|[q a] l IH]; intros p Hs; simpl in *.
  - constructor.
  - pose proof Hs as Hs0.
    destruct Hs as (-> & Hq & Ha & n & Hn & Hs).
    constructor; [| eapply IH; done].
    intros Hin. apply list_elem_of_fmap in Hin as ([q' a'] & Heq & Hin).
    simpl in Heq. subst q'.
    apply list_elem_of_split in Hin as (l1 & l2 & ->).
    apply seg_app in Hs as (mid & _ & Hs2).
    assert (mid = q) as -> by (simpl in Hs2; tauto).
    pose proof (lseg_functional _ _ _ _ Hs0 Hs2) as Heq.
    apply (f_equal length) in Heq. simpl in Heq.
    rewrite length_app in Heq. simpl in Heq. lia.
Qed.

Lemma lsegb_sound h l : forall p, lsegb h p l = true -> lseg h p l.
Proof.
  unfold lseg.
  induction l as [|[q a] l IH]; intros p H; simpl in *.
  - apply Z.eqb_eq. done.
  - destruct (field_at h q f_next) as [[n|]|] eqn:Hn;
      try (rewrite andb_false_r in H; discriminate).
    repeat (apply andb_true_iff in H as [H ?]).
    apply Z.eqb_eq in H. apply negb_true_iff, Z.eqb_neq in H2.
    unfold is_ptr in H1. destruct (field_at h q f_addr) as [[a'|]|]; try done.
    apply Z.eqb_eq in H1. subst.
    repeat split; try done. exists n. split; [done |]. apply IH. done.
Qed.

Lemma is_ptr_sound o p : is_ptr o p = true -> o = Some (VPtr p).
Proof.
  destruct o as [[q|]|]; simpl; try done. intros H%Z.eqb_eq. congruence.
Qed.

Lemma is_fn_sound o f : is_fn o f = true -> o = Some (VFn f).
Proof.
  destruct o as [[|g]|]; simpl; try done.
  intros H%bool_decide_eq_true. congruence.
Qed.

Lemma registryb_sound h m l : registryb h m l = true -> registry h m l.
Proof.
  unfold registryb, registry, manager_at.
  destruct (field_at h m f_head) as [[head|]|] eqn:Hh; try done.
  intros H. repeat (apply andb_true_iff in H as [H ?]).
  exists head. repeat split.
  - apply negb_true_iff, Z.eqb_neq in H. done.
  - apply is_fn_sound. done.
  - apply is_fn_sound. done.
  - apply is_fn_sound. done.
  - apply lsegb_sound. done.
  - eapply bool_decide_eq_true. done.
Qed.

Lemma blocks_liveb_sound h m l : blocks_liveb h m l = true -> blocks_live h m l.
Proof.
  unfold blocks_liveb, blocks_live. intros [H1 H2]%andb_true_iff.
  split; [eapply bool_decide_eq_true; done |].
  intros a Ha. rewrite forallb_forall in H2.
  specialize (H2 a). rewrite <- list_elem_of_In in H2. specialize (H2 Ha).
  repeat (apply andb_true_iff in H2 as [H2 ?]).
  apply negb_true_iff, Z.eqb_neq in H2. apply negb_true_iff, Z.eqb_neq in H0.
  apply bool_decide_eq_true in H, H3. done.
Qed.

(** Stepping through a computation: each tactic runs the first statement
    of [bind c k w], its side condition taken from the hypotheses. *)
Ltac wsimpl :=
  cbn [heap errno oracle stderr frees
       set_heap set_errno set_oracle set_stderr set_frees] in *.

Ltac step_with lem :=
  erewrite bind_done; [| apply lem; wsimpl; eassumption]; wsimpl.

Ltac step_load := step_with load_ptr_done.
Ltac step_load_fn := step_with load_fn_done.
Ltac step_store := step_with store_done.

(** ** The loops *)

Lemma snoc_or_nil {A} (l : list A) : l = [] \/ exists l0 x, l = l0 ++ [x].
Proof. induction l using rev_ind; eauto. Qed.

Lemma last_node_snoc l : forall d q a, last_node (l ++ [(q, a)]) d = q.
Proof. induction l as [|[x b] l IH]; intros; simpl; [done | apply IH]. Qed.

Lemma seg_last_node h l : forall p e,
  seg h p l e -> l <> [] ->
  last_node l NULL ∈ l.*1 /\
  field_at h (last_node l NULL) f_next = Some (VPtr e).
Proof.
  induction l as [|[q a] l IH]; intros p e Hs Hne; [done |].
  simpl in Hs. destruct Hs as (-> & Hq & Ha & n & Hn & Hs).
  destruct l as [|[q' a'] l].
  - simpl in *. subst. split; [apply elem_of_cons; auto | done].
  - destruct (IH _ _ Hs) as [Hin Hlast]; [done |].
    change (last_node ((q, a) :: (q', a') :: l) NULL)
      with (last_node ((q', a') :: l) NULL).
    split; [rewrite fmap_cons; apply elem_of_cons; auto | done].
Qed.

Lemma mm_add_loop_done w l : forall (fuel : nat) q a,
  lseg (heap w) q ((q, a) :: l) -> (length l < fuel)%nat ->
  mm_add_loop fuel q w = Done (last_node l q) w.
Proof.
  unfold lseg.
  induction l as [|[q' a'] l IH]; intros fuel q a Hs Hf;
    (destruct fuel as [|fuel]; [simpl in Hf; lia |]);
    simpl in Hs; destruct Hs as (_ & Hq & Ha & n & Hn & Hs); simpl.
  - subst n. rewrite (bind_done _ _ _ _ _ (load_ptr_done _ _ _ _ Hn)). done.
  - destruct Hs as (-> & Hq' & Hs).
    rewrite (bind_done _ _ _ _ _ (load_ptr_done _ _ _ _ Hn)).
    destruct (Z.eqb_spec q' NULL) as [Heq0 | _]; [done |].
    apply (IH fuel q' a'); [simpl; done | simpl in Hf; lia].
Qed.

Lemma mm_free_loop_done w mem l : forall (fuel : nat) p prev,
  lseg (heap w) p l -> (length l < fuel)%nat ->
  mm_free_loop fuel mem p prev w
  = Done (first_match mem l, prev_match mem l prev) w.
Proof.
  unfold lseg.
  induction l as [|[q a] l IH]; intros fuel p prev Hs Hf;
    (destruct fuel as [|fuel]; [simpl in Hf; lia |]); simpl in Hs |- *.
  - subst p. done.
  - destruct Hs as (-> & Hq & Ha & n & Hn & Hs).
    destruct (Z.eqb_spec q NULL) as [Heq0 | _]; [done |].
    rewrite (bind_done _ _ _ _ _ (load_ptr_done _ _ _ _ Ha)).
    destruct (a =? mem); [done |].
    rewrite (bind_done _ _ _ _ _ (load_ptr_done _ _ _ _ Hn)).
    apply IH; [done | simpl in Hf; lia].
Qed.

Lemma mm_find_loop_done w mem l : forall (fuel : nat) p,
  lseg (heap w) p l -> (length l < fuel)%nat ->
  mm_find_loop fuel mem p w = Done (first_match mem l) w.
Proof.
  unfold lseg.
  induction l as [|[q a] l IH]; intros fuel p Hs Hf;
    (destruct fuel as [|fuel]; [simpl in Hf; lia |]); simpl in Hs |- *.
  - subst p. done.
  - destruct Hs as (-> & Hq & Ha & n & Hn & Hs).
    destruct (Z.eqb_spec q NULL) as [Heq0 | _]; [done |].
    rewrite (bind_done _ _ _ _ _ (load_ptr_done _ _ _ _ Ha)).
    destruct (a =? mem); [done |].
    rewrite (bind_done _ _ _ _ _ (load_ptr_done _ _ _ _ Hn)).
    apply IH; [done | simpl in Hf; lia].
Qed.

(** [mm_find_in_list] on a registry: the first record that holds [mem]. *)
Lemma mm_find_in_list_done w m l mem (fuel : nat) :
  registry (heap w) m l -> (length l < fuel)%nat ->
  mm_find_in_list fuel m mem w = Done (first_match mem l) w.
Proof.
  intros (head & (Hm & Hh & _) & Hs & _) Hf. unfold mm_find_in_list.
  rewrite (bind_done _ _ _ _ _ (load_ptr_done _ _ _ _ Hh)).
  apply mm_find_loop_done; done.
Qed.

(** ** Searching the sequence *)

Lemma first_match_absent mem l : mem ∉ l.*2 -> first_match mem l = NULL.
Proof.
  induction l as [|[q a] l IH]; intros Hn; simpl; [done |].
  rewrite fmap_cons, not_elem_of_cons in Hn. destruct Hn as [Hne Hn].
  destruct (Z.eqb_spec a mem); [simpl in Hne; congruence | auto].
Qed.

Lemma remove_first_absent mem l : mem ∉ l.*2 -> remove_first mem l = l.
Proof.
  induction l as [|[q a] l IH]; intros Hn; simpl; [done |].
  rewrite fmap_cons, not_elem_of_cons in Hn. destruct Hn as [Hne Hn].
  destruct (Z.eqb_spec a mem); [simpl in Hne; congruence |].
  rewrite IH; done.
Qed.

Lemma first_match_split mem l :
  mem ∈ l.*2 ->
  exists l1 q l2,
    l = l1 ++ (q, mem) :: l2 /\ (mem ∉ l1.*2) /\
    first_match mem l = q /\
    (forall d, prev_match mem l d = last_node l1 d) /\
    remove_first mem l = l1 ++ l2 /\
    (forall new, retarget mem new l = l1 ++ (q, new) :: l2).
Proof.
  induction l as [|[q a] l IH]; intros Hin.
  - apply elem_of_nil in Hin. done.
  - rewrite fmap_cons in Hin. simpl. destruct (Z.eqb_spec a mem) as [->|Hne].
    + exists [], q, l. repeat split; try done. apply not_elem_of_nil.
    + apply elem_of_cons in Hin as [Heq | Hin]; [simpl in Heq; congruence |].
      destruct (IH Hin) as (l1 & q' & l2 & -> & Hn & Hf & Hp & Hr & Ht).
      exists ((q, a) :: l1), q', l2. repeat split.
      * rewrite fmap_cons. apply not_elem_of_cons. done.
      * done.
      * intros d. apply Hp.
      * simpl. congruence.
      * intros new. simpl. rewrite Ht. done.
Qed.

Lemma first_match_found h p l mem :
  lseg h p l -> mem ∈ l.*2 ->
  first_match mem l <> NULL /\ first_match mem l ∈ l.*1.
Proof.
  intros Hs Hin.
  destruct (first_match_split _ _ Hin) as (l1 & q & l2 & Hl & _ & Hf & _).
  assert (q ∈ l.*1) as Hq.
  { rewrite Hl, fmap_app, fmap_cons. apply elem_of_app. right.
    apply elem_of_cons. auto. }
  rewrite Hf. split; [| done]. eapply seg_live; done.
Qed.

Lemma first_match_NULL_iff h p l mem :
  lseg h p l -> (first_match mem l = NULL <-> mem ∉ l.*2).
Proof.
  intros Hs. split.
  - intros Hf Hin. destruct (first_match_found _ _ _ _ Hs Hin). done.
  - apply first_match_absent.
Qed.

(** ** The allocator *)

Lemma malloc_inv w size p w1 :
  malloc size w = Done p w1 ->
  (p <> NULL /\ heap w !! p = None /\
   w1 = set_heap (<[p := Block size ∅]> (heap w))
                 (set_oracle (next_answer w).2 w)) \/
  (p = NULL /\ w1 = set_errno ENOMEM (set_oracle (next_answer w).2 w)).
Proof.
  unfold malloc, refuse. destruct (next_answer w) as [c o]. simpl.
  destruct (usable (heap w) c) eqn:Hu; intros [= <- <-].
  - apply usable_true in Hu as [? ?]. left. done.
  - right. done.
Qed.

Lemma malloc_total w size : exists p w1, malloc size w = Done p w1.
Proof.
  unfold malloc, refuse. destruct (next_answer w) as [c o].
  destruct (usable (heap w) c); eauto.
Qed.

Lemma field_at_agree h h' x f :
  h' !! x = h !! x -> field_at h' x f = field_at h x f.
Proof. unfold field_at. intros ->. done. Qed.

(** A registry only depends on the manager and the nodes of its list. *)
Lemma registry_frame h h' m l :
  registry h m l ->
  (forall x, x = m \/ x ∈ l.*1 -> h' !! x = h !! x) ->
  registry h' m l.
Proof.
  intros (head & (Hm & Hh & Ha & Hf & Hfa) & Hs & Hnm) Hfr.
  exists head. split; [| split; [| done]].
  - unfold manager_at.
    rewrite !(field_at_agree h h' m) by (apply Hfr; auto). done.
  - eapply seg_frame; [| done].
    intros q Hq. rewrite !(field_at_agree h h' q) by (apply Hfr; auto). done.
Qed.

Lemma registry_live h m l x :
  registry h m l -> x = m \/ x ∈ l.*1 -> x <> NULL /\ is_Some (h !! x).
Proof.
  intros (head & (Hm & Hh & _) & Hs & _) [-> | Hx].
  - split; [done |]. eapply field_at_live; done.
  - eapply seg_live; done.
Qed.

Lemma registry_functional h m l1 l2 :
  registry h m l1 -> registry h m l2 -> l1 = l2.
Proof.
  intros (h1 & (_ & Hh1 & _) & Hs1 & _) (h2 & (_ & Hh2 & _) & Hs2 & _).
  assert (h1 = h2) as <- by congruence.
  eapply lseg_functional; done.
Qed.

(** ** mm_add *)

Lemma mm_add_granted w m l mem (fuel : nat) p w1 :
  registry (heap w) m l -> (length l <= fuel)%nat ->
  malloc sizeof_memory_address w = Done p w1 -> p <> NULL ->
  exists w',
    mm_add fuel m mem w = Done mem w' /\
    registry (heap w') m (l ++ [(p, mem)]) /\
    (forall x, x <> m -> x <> p -> x ∉ l.*1 -> heap w' !! x = heap w !! x) /\
    errno w' = errno w /\ stderr w' = stderr w /\ frees w' = frees w /\
    oracle w' = oracle w1.
Proof.
  intros Hreg Hf Hmal Hp.
  destruct (malloc_inv _ _ _ _ Hmal) as [(_ & Hfresh & ->) | [? _]]; [| done].
  set (o := (next_answer w).2) in *.
  set (h1 := <[p := Block sizeof_memory_address ∅]> (heap w)).
  set (h2 := heap_store h1 p f_addr (VPtr mem)).
  set (h3 := heap_store h2 p f_next (VPtr NULL)).
  assert (is_Some (h1 !! p)) as Hl1 by (unfold h1; rewrite lookup_insert_eq; eauto).
  assert (is_Some (h2 !! p)) as Hl2 by (apply heap_store_live; done).
  assert (is_Some (h3 !! p)) as Hl3 by (apply heap_store_live; done).
  assert (forall x, x <> p -> h3 !! x = heap w !! x) as Hfr3.
  { intros x Hx. unfold h3, h2, h1.
    rewrite !heap_store_lookup_ne by done. apply lookup_insert_ne. done. }
  assert (field_at h3 p f_addr = Some (VPtr mem)) as Hpa.
  { unfold h3. rewrite field_at_store_other by done.
    apply field_at_store_eq. done. }
  assert (field_at h3 p f_next = Some (VPtr NULL)) as Hpn.
  { apply field_at_store_eq. done. }
  assert (forall x, x = m \/ x ∈ l.*1 -> x <> p) as Hold.
  { intros x Hx ->. destruct (registry_live _ _ _ _ Hreg Hx) as [_ [b Hb]].
    congruence. }
  pose proof (registry_frame _ h3 _ _ Hreg) as Hreg3.
  destruct Hreg3 as (head & (Hm & Hh & Hfa & Hff & Hfall) & Hs & Hnm).
  { intros x Hx. apply Hfr3. auto. }
  unfold mm_add. rewrite (bind_done _ _ _ _ _ Hmal).
  destruct (Z.eqb_spec p NULL) as [Heq0 | _]; [done |].
  step_store. step_store. step_load.
  assert (is_Some (h3 !! m)) as Hlm by (eapply field_at_live; done).
  assert (m <> p) as Hmp by (apply Hold; auto).
  destruct l as [|[q a] l].
  - (* the list is empty: the new node becomes the head *)
    unfold lseg in Hs. simpl in Hs. subst head. simpl.
    step_store.
    eexists. split; [| split; [| split]].
    + apply load_ptr_done. wsimpl. fold h1; fold h2; fold h3.
      rewrite field_at_store_ne by done. done.
    + wsimpl. fold h1; fold h2; fold h3. exists p. split; [| split].
      * unfold manager_at. rewrite field_at_store_eq by done.
        rewrite !field_at_store_other by done. done.
      * unfold lseg. simpl. fold h1; fold h2; fold h3.
        rewrite !field_at_store_ne by done.
        repeat split; try done. exists NULL. done.
      * rewrite fmap_cons. apply not_elem_of_cons. split; [done |].
        apply not_elem_of_nil.
    + intros x Hxm Hxp _. wsimpl. fold h1; fold h2; fold h3.
      rewrite heap_store_lookup_ne by done.
      apply Hfr3. done.
    + done.
  - (* the list is not empty: the last node gets the new one as its next *)
    pose proof Hs as Hs0. unfold lseg in Hs. simpl in Hs.
    destruct Hs as (-> & Hq & Ha & n & Hn & Hs).
    destruct (Z.eqb_spec q NULL) as [Heq0 | _]; [done |].
    erewrite bind_done;
      [| apply (mm_add_loop_done _ l fuel q a); [done | simpl in Hf; lia]].
    destruct (seg_last_node h3 ((q, a) :: l) q NULL Hs0) as [Hlin Hlnext];
      [done |].
    change (last_node ((q, a) :: l) NULL) with (last_node l q) in Hlin, Hlnext.
    set (t := last_node l q) in *.
    assert (is_Some (h3 !! t)) as Hlt by (eapply field_at_live; done).
    assert (t <> p) as Htp.
    { apply Hold. right. done. }
    assert (t <> m) as Htm by (intros ->; done).
    step_store.
    pose proof (lseg_NoDup _ _ _ Hs0) as Hnd.
    eexists. split; [| split; [| split]].
    + apply load_ptr_done. wsimpl. fold h1; fold h2; fold h3.
      rewrite field_at_store_ne by done. done.
    + wsimpl. fold h1; fold h2; fold h3. exists q. split; [| split].
      * unfold manager_at. rewrite !field_at_store_ne by done. done.
      * (* split the old list before its last node *)
        destruct (snoc_or_nil ((q, a) :: l)) as [|(l0 & [t' a'] & Hl0)];
          [done |].
        assert (t' = t) as ->.
        { unfold t. change (last_node l q)
            with (last_node ((q, a) :: l) NULL).
          rewrite Hl0. rewrite last_node_snoc. done. }
        change ((q, a) :: l ++ [(p, mem)]) with (((q, a) :: l) ++ [(p, mem)]).
        rewrite Hl0 in Hs0, Hnd |- *. unfold lseg in *.
        rewrite <- app_assoc. apply seg_app.
        apply seg_app in Hs0 as (mid & Hs1 & Hs2).
        exists mid. split.
        -- eapply seg_frame; [| done]. intros x Hx.
           assert (x <> t) as Hxt.
           { intros ->. rewrite fmap_app in Hnd.
             apply NoDup_app in Hnd as (_ & Hnd & _).
             apply (Hnd t); [done |]. simpl. apply elem_of_cons. auto. }
           rewrite !field_at_store_ne by done. done.
        -- simpl in Hs2 |- *. destruct Hs2 as (-> & Ht & Hta & n' & Hn' & ->).
           repeat split; try done.
           ++ rewrite field_at_store_other by done. done.
           ++ exists p. split; [apply field_at_store_eq; done |].
              rewrite !field_at_store_ne by done.
              repeat split; try done. exists NULL. done.
      * rewrite fmap_app. rewrite not_elem_of_app. split; [done |].
        simpl. apply not_elem_of_cons. split; [done | apply not_elem_of_nil].
    + intros x Hxm Hxp Hxl. wsimpl. fold h1; fold h2; fold h3.
      rewrite heap_store_lookup_ne; [apply Hfr3; done |].
      intros <-. done.
    + done.
Qed.

Lemma mm_add_refused w m mem (fuel : nat) w1 :
  malloc sizeof_memory_address w = Done NULL w1 ->
  mm_add fuel m mem w = Done NULL w1 /\
  heap w1 = heap w /\ stderr w1 = stderr w /\ frees w1 = frees w.
Proof.
  intros Hmal. unfold mm_add. rewrite (bind_done _ _ _ _ _ Hmal).
  destruct (malloc_inv _ _ _ _ Hmal) as [[? _] | [_ ->]]; done.
Qed.

(** ** mm_free *)

Lemma first_match_app mem l1 q l2 :
  mem ∉ l1.*2 -> first_match mem (l1 ++ (q, mem) :: l2) = q.
Proof.
  induction l1 as [|[x a] l1 IH]; intros Hn; simpl.
  - rewrite Z.eqb_refl. done.
  - rewrite fmap_cons, not_elem_of_cons in Hn. destruct Hn as [Hne Hn].
    destruct (Z.eqb_spec a mem); [simpl in Hne; congruence | auto].
Qed.

Lemma prev_match_app mem l1 q l2 : forall d,
  mem ∉ l1.*2 -> prev_match mem (l1 ++ (q, mem) :: l2) d = last_node l1 d.
Proof.
  induction l1 as [|[x a] l1 IH]; intros d Hn; simpl.
  - rewrite Z.eqb_refl. done.
  - rewrite fmap_cons, not_elem_of_cons in Hn. destruct Hn as [Hne Hn].
    destruct (Z.eqb_spec a mem); [simpl in Hne; congruence | auto].
Qed.

Lemma remove_first_app mem l1 q l2 :
  mem ∉ l1.*2 -> remove_first mem (l1 ++ (q, mem) :: l2) = l1 ++ l2.
Proof.
  induction l1 as [|[x a] l1 IH]; intros Hn; simpl.
  - rewrite Z.eqb_refl. done.
  - rewrite fmap_cons, not_elem_of_cons in Hn. destruct Hn as [Hne Hn].
    destruct (Z.eqb_spec a mem); [simpl in Hne; congruence |].
    rewrite IH; done.
Qed.

Lemma retarget_app old new l1 q l2 :
  old ∉ l1.*2 ->
  retarget old new (l1 ++ (q, old) :: l2) = l1 ++ (q, new) :: l2.
Proof.
  induction l1 as [|[x a] l1 IH]; intros Hn; simpl.
  - rewrite Z.eqb_refl. done.
  - rewrite fmap_cons, not_elem_of_cons in Hn. destruct Hn as [Hne Hn].
    destruct (Z.eqb_spec a old); [simpl in Hne; congruence |].
    rewrite IH; done.
Qed.

Lemma last_node_nonempty l : forall d d', l <> [] -> last_node l d = last_node l d'.
Proof. destruct l as [|[q a] l]; intros; [done | reflexivity]. Qed.

Lemma seg_head_in h p l e : seg h p l e -> l <> [] -> p ∈ l.*1.
Proof.
  destruct l as [|[q a] l]; intros Hs Hne; [done |].
  simpl in Hs. destruct Hs as (-> & _). rewrite fmap_cons.
  apply elem_of_cons. auto.
Qed.

(** Redirecting the [next] of the last node of a segment. *)
Lemma seg_relink h l : forall p e e',
  seg h p l e -> l <> [] -> NoDup l.*1 ->
  seg (heap_store h (last_node l NULL) f_next (VPtr e')) p l e'.
Proof.
  induction l as [|[q a] l IH]; intros p e e' Hs Hne Hnd; [done |].
  simpl in Hs. destruct Hs as (-> & Hq & Ha & n & Hn & Hs).
  rewrite fmap_cons in Hnd. apply NoDup_cons in Hnd as [Hqn Hnd].
  destruct l as [|[q' a'] l].
  - simpl in Hs |- *. subst n.
    assert (is_Some (h !! q)) by (eapply field_at_live; done).
    rewrite field_at_store_other by done.
    rewrite field_at_store_eq by done. repeat split; try done. eauto.
  - change (last_node ((q, a) :: (q', a') :: l) NULL)
      with (last_node ((q', a') :: l) NULL).
    set (l' := (q', a') :: l) in *.
    assert (l' <> []) as Hne' by done.
    destruct (seg_last_node _ _ _ _ Hs Hne') as [Hin _].
    assert (last_node l' NULL <> q) as Hlq by (intros Heq; rewrite Heq in Hin; done).
    simpl. rewrite !field_at_store_ne by done.
    repeat split; try done. exists n. split; [done |].
    apply (IH _ e); done.
Qed.

Lemma seg_delete h x l : forall p e,
  seg h p l e -> x ∉ l.*1 -> seg (delete x h) p l e.
Proof.
  intros p e Hs Hx. eapply seg_frame; [| done].
  intros q Hq. rewrite !field_at_delete_ne; [done | |]; intros ->; done.
Qed.

Lemma seg_store h x f v l : forall p e,
  seg h p l e -> x ∉ l.*1 -> seg (heap_store h x f v) p l e.
Proof.
  intros p e Hs Hx. eapply seg_frame; [| done].
  intros q Hq. rewrite !field_at_store_ne; [done | |]; intros ->; done.
Qed.

Lemma manager_at_delete h x m head :
  manager_at h m head -> x <> m -> manager_at (delete x h) m head.
Proof.
  unfold manager_at. intros H Hx. rewrite !field_at_delete_ne by done. done.
Qed.

Lemma manager_at_store h x f v m head :
  manager_at h m head -> x <> m -> manager_at (heap_store h x f v) m head.
Proof.
  unfold manager_at. intros H Hx. rewrite !field_at_store_ne by done. done.
Qed.

Lemma manager_at_set_head h m head head' :
  manager_at h m head ->
  manager_at (heap_store h m f_head (VPtr head')) m head'.
Proof.
  unfold manager_at. intros (Hm & Hh & H).
  assert (is_Some (h !! m)) by (eapply field_at_live; done).
  rewrite field_at_store_eq by done.
  rewrite !field_at_store_other by done. done.
Qed.

Lemma mm_free_absent w m l mem (fuel : nat) :
  registry (heap w) m l -> (length l < fuel)%nat -> mem ∉ l.*2 ->
  mm_free fuel m mem w = Done (-1) w.
Proof.
  intros (head & (Hm & Hh & _) & Hs & _) Hf Hn. unfold mm_free.
  step_load.
  erewrite bind_done; [| apply mm_free_loop_done; done].
  rewrite first_match_absent by done. done.
Qed.

Lemma mm_free_present w m l1 q l2 mem (fuel : nat) :
  registry (heap w) m (l1 ++ (q, mem) :: l2) ->
  (length (l1 ++ (q, mem) :: l2) < fuel)%nat ->
  mem ∉ l1.*2 ->
  mem <> NULL -> is_Some (heap w !! mem) -> mem <> m ->
  mem ∉ (l1 ++ (q, mem) :: l2).*1 ->
  exists w',
    mm_free fuel m mem w = Done 0 w' /\
    registry (heap w') m (l1 ++ l2) /\
    heap w' !! mem = None /\ heap w' !! q = None /\
    (forall x, x <> m -> x <> mem -> x ∉ (l1 ++ (q, mem) :: l2).*1 ->
               heap w' !! x = heap w !! x) /\
    frees w' = frees w ++ [mem; q] /\
    errno w' = errno w /\ oracle w' = oracle w /\ stderr w' = stderr w.
Proof.
  intros (head & Hman & Hs & Hnm) Hf Hn Hmem Hlive Hmm Hmn.
  pose proof (lseg_NoDup _ _ _ Hs) as Hnd.
  pose proof Hman as (Hm & Hh & _).
  pose proof Hs as Hs0. unfold lseg in Hs.
  apply seg_app in Hs as (mid & Hs1 & Hs2).
  simpl in Hs2. destruct Hs2 as (-> & Hq & Ha & n & Hnx & Hs2).
  rewrite fmap_app, fmap_cons in Hnd, Hnm, Hmn. simpl in Hnd, Hnm, Hmn.
  apply NoDup_app in Hnd as (Hnd1 & Hdis & Hnd2).
  apply NoDup_cons in Hnd2 as [Hq2 Hnd2].
  apply not_elem_of_app in Hnm as [Hnm1 Hnm2].
  apply not_elem_of_cons in Hnm2 as [Hmq Hnm2].
  apply not_elem_of_app in Hmn as [Hmn1 Hmn2].
  apply not_elem_of_cons in Hmn2 as [Hmemq Hmn2].
  assert (q ∉ l1.*1) as Hq1.
  { intros Hin. apply (Hdis q Hin). apply elem_of_cons. auto. }
  assert (is_Some (heap w !! q)) as Hlq by (eapply field_at_live; done).
  assert (is_Some (heap w !! m)) as Hlm by (eapply field_at_live; done).
  unfold mm_free. step_load.
  erewrite bind_done; [| apply mm_free_loop_done; done].
  rewrite first_match_app, prev_match_app by done.
  destruct (Z.eqb_spec q NULL) as [Heq0 | _]; [done |].
  step_load.
  destruct (decide (l1 = [])) as [-> | Hne1].
  - (* the record is the first one: the head moves to its successor *)
    simpl in Hs1. subst head. rewrite Z.eqb_refl.
    rewrite bind_assoc. step_load. step_store.
    set (h1 := heap_store (heap w) m f_head (VPtr n)).
    assert (field_at h1 q f_addr = Some (VPtr mem)) as Ha1.
    { unfold h1. rewrite field_at_store_ne by done. done. }
    step_load.
    erewrite bind_done;
      [| apply free_done; wsimpl; [done | apply heap_store_live; done]].
    wsimpl.
    erewrite bind_done;
      [| apply free_done; wsimpl;
         [done | rewrite lookup_delete_ne by done;
                 apply heap_store_live; done]].
    wsimpl. fold h1.
    eexists. split; [reflexivity |]. wsimpl.
    split; [| split; [| split; [| split]]].
    + exists n. split; [| split].
      * apply manager_at_delete; [| done]. apply manager_at_delete; [| done].
        apply manager_at_set_head with (head := q). done.
      * simpl. unfold lseg.
        apply seg_delete; [| done]. apply seg_delete; [| done].
        apply seg_store; done.
      * done.
    + rewrite lookup_delete_ne by done. apply lookup_delete_eq.
    + apply lookup_delete_eq.
    + intros x Hxm Hxmem Hxn. simpl in Hxn.
      apply not_elem_of_cons in Hxn as [Hxq Hxn].
      rewrite !lookup_delete_ne by done.
      apply heap_store_lookup_ne. done.
    + rewrite <- app_assoc. done.
  - (* the record has a predecessor: its next skips the record *)
    pose proof (seg_head_in _ _ _ _ Hs1 Hne1) as Hhead.
    destruct (seg_last_node _ _ _ _ Hs1 Hne1) as [Htin Htnext].
    set (t := last_node l1 NULL) in *.
    destruct (Z.eqb_spec q head) as [-> | _]; [done |].
    assert (is_Some (heap w !! t)) as Hlt by (eapply field_at_live; done).
    assert (t <> q) as Htq by (intros ->; done).
    assert (t <> m) as Htm by (intros ->; done).
    assert (t <> mem) as Htmem by (intros ->; done).
    rewrite bind_assoc. step_load. step_store.
    set (h1 := heap_store (heap w) t f_next (VPtr n)).
    assert (field_at h1 q f_addr = Some (VPtr mem)) as Ha1.
    { unfold h1. rewrite field_at_store_ne by done. done. }
    step_load.
    erewrite bind_done;
      [| apply free_done; wsimpl; [done | apply heap_store_live; done]].
    wsimpl.
    erewrite bind_done;
      [| apply free_done; wsimpl;
         [done | rewrite lookup_delete_ne by done;
                 apply heap_store_live; done]].
    wsimpl. fold h1.
    eexists. split; [reflexivity |]. wsimpl.
    split; [| split; [| split; [| split]]].
    + exists head. split; [| split].
      * apply manager_at_delete; [| done]. apply manager_at_delete; [| done].
        apply manager_at_store; done.
      * unfold lseg. apply seg_app. exists n. split.
        -- apply seg_delete; [| done]. apply seg_delete; [| done].
           unfold h1, t. eapply seg_relink; done.
        -- apply seg_delete; [| done]. apply seg_delete; [| done].
           apply seg_store; [done |].
           intros Hin. apply (Hdis t Htin). apply elem_of_cons. auto.
      * rewrite fmap_app. apply not_elem_of_app. done.
    + rewrite lookup_delete_ne by done. apply lookup_delete_eq.
    + apply lookup_delete_eq.
    + intros x Hxm Hxmem Hxn. rewrite fmap_app, fmap_cons in Hxn.
      apply not_elem_of_app in Hxn as [Hx1 Hxn].
      apply not_elem_of_cons in Hxn as [Hxq Hxn].
      rewrite !lookup_delete_ne by done.
      apply heap_store_lookup_ne. intros <-. done.
    + rewrite <- app_assoc. done.
Qed.

(** ** mm_free_all *)

Lemma release_all_lookup_ne h l x :
  x ∉ l.*1 -> x ∉ l.*2 -> release_all h l !! x = h !! x.
Proof.
  induction l as [|[q a] l IH]; intros H1 H2; simpl; [done |].
  rewrite fmap_cons in H1, H2.
  apply not_elem_of_cons in H1 as [Hq H1].
  apply not_elem_of_cons in H2 as [Ha H2]. simpl in Hq, Ha.
  rewrite !lookup_delete_ne by done. auto.
Qed.

Lemma release_all_dead h l x :
  x ∈ l.*1 \/ x ∈ l.*2 -> release_all h l !! x = None.
Proof.
  induction l as [|[q a] l IH]; intros Hx; cbn [release_all].
  - destruct Hx as [Hx | Hx]; apply elem_of_nil in Hx; done.
  - rewrite !fmap_cons, !elem_of_cons in Hx. simpl in Hx.
    destruct (decide (x = q)) as [-> | Hq]; [apply lookup_delete_eq |].
    rewrite lookup_delete_ne by done.
    destruct (decide (x = a)) as [-> | Ha]; [apply lookup_delete_eq |].
    rewrite lookup_delete_ne by done. apply IH. tauto.
Qed.

Lemma elem_of_release_order l x :
  x ∈ release_order l <-> x ∈ l.*1 \/ x ∈ l.*2.
Proof.
  induction l as [|[q a] l IH]; cbn [release_order].
  - rewrite !fmap_nil, !elem_of_nil. tauto.
  - rewrite elem_of_app, IH, !fmap_cons, !elem_of_cons, elem_of_nil. simpl.
    tauto.
Qed.

Lemma mm_free_recurse_done l : forall w p (fuel : nat),
  lseg (heap w) p l ->
  NoDup l.*2 ->
  (forall a, a ∈ l.*2 -> a <> NULL /\ is_Some (heap w !! a) /\ a ∉ l.*1) ->
  (length l < fuel)%nat -> Z.of_nat (length l) <= INT_MAX ->
  mm_free_recurse fuel p w
  = Done (Z.of_nat (length l))
         (set_heap (release_all (heap w) l)
                   (set_frees (frees w ++ release_order l) w)).
Proof.
  induction l as [|[q a] l IH]; intros w p fuel Hs Hnd Hlive Hf Hmax;
    (destruct fuel as [|fuel]; [simpl in Hf; lia |]).
  - unfold lseg in Hs. simpl in Hs. subst p. simpl.
    rewrite app_nil_r. destruct w. reflexivity.
  - pose proof (lseg_NoDup _ _ _ Hs) as Hndn.
    unfold lseg in Hs. simpl in Hs.
    destruct Hs as (-> & Hq & Ha & n & Hn & Hs).
    rewrite fmap_cons in Hnd, Hndn. simpl in Hnd, Hndn.
    apply NoDup_cons in Hnd as [Hal Hnd].
    apply NoDup_cons in Hndn as [Hql Hndn].
    assert (a <> NULL /\ is_Some (heap w !! a) /\ a <> q /\ a ∉ l.*1)
      as (Ha0 & Halive & Haq & Han).
    { destruct (Hlive a) as (? & ? & Hn1).
      - rewrite fmap_cons. apply elem_of_cons. auto.
      - rewrite fmap_cons in Hn1. apply not_elem_of_cons in Hn1. tauto. }
    assert (q ∉ l.*2) as Hqa.
    { intros Hin. destruct (Hlive q) as (_ & _ & Hn1).
      - rewrite fmap_cons. apply elem_of_cons. auto.
      - apply Hn1. rewrite fmap_cons. apply elem_of_cons. auto. }
    cbn [mm_free_recurse].
    destruct (Z.eqb_spec q NULL) as [Heq0 | _]; [done |].
    step_load.
    erewrite bind_done; cycle 1.
    { apply IH; try done.
      - intros b Hb. destruct (Hlive b) as (? & ? & Hn1).
        + rewrite fmap_cons. apply elem_of_cons. auto.
        + rewrite fmap_cons in Hn1. apply not_elem_of_cons in Hn1. tauto.
      - simpl in Hf. lia.
      - simpl length in Hmax. lia. }
    destruct (Z.leb_spec INT_MAX (Z.of_nat (length l))) as [Hbad | _];
      [simpl length in Hmax; lia |].
    assert (release_all (heap w) l !! q = heap w !! q) as Eq
      by (apply release_all_lookup_ne; done).
    assert (release_all (heap w) l !! a = heap w !! a) as Ea
      by (apply release_all_lookup_ne; done).
    erewrite bind_done; cycle 1.
    { apply load_ptr_done. wsimpl.
      rewrite (field_at_agree _ _ _ _ Eq). exact Ha. }
    erewrite bind_done; cycle 1.
    { apply free_done; wsimpl; [done | rewrite Ea; done]. }
    erewrite bind_done; cycle 1.
    { apply free_done; wsimpl; [done |].
      rewrite lookup_delete_ne by done. rewrite Eq.
      eapply field_at_live. exact Ha. }
    unfold ret. wsimpl. f_equal.
    + simpl length. lia.
    + unfold set_heap, set_frees. simpl. f_equal.
      rewrite <- !app_assoc. reflexivity.
Qed.

(** [mm_free_all] on a registry whose blocks are live: every record is
    released, and the count is returned.  The [head] member of the manager
    is not written: it still holds the address of the first node. *)
Lemma mm_free_all_done w m l (fuel : nat) :
  registry (heap w) m l -> blocks_live (heap w) m l ->
  (length l < fuel)%nat -> Z.of_nat (length l) <= INT_MAX ->
  mm_free_all fuel m w
  = Done (Z.of_nat (length l))
         (set_heap (release_all (heap w) l)
                   (set_frees (frees w ++ release_order l) w)).
Proof.
  intros (head & (Hm & Hh & _) & Hs & Hnm) [Hnd Hlive] Hf Hmax.
  unfold mm_free_all. step_load.
  erewrite bind_done; [reflexivity |].
  apply mm_free_recurse_done; try done.
  intros a Ha. destruct (Hlive a Ha) as (? & ? & ? & ?). done.
Qed.

Lemma blocks_live_not_manager h m l : blocks_live h m l -> m ∉ l.*2.
Proof. intros [_ H] Hin. destruct (H m Hin) as (_ & _ & ? & _). done. Qed.

(** ** What a refused or granted request leaves behind *)

Lemma malloc_null_inv w size w1 :
  malloc size w = Done NULL w1 ->
  heap w1 = heap w /\ stderr w1 = stderr w /\ frees w1 = frees w.
Proof.
  intros H. destruct (malloc_inv _ _ _ _ H) as [[? _] | [_ ->]]; done.
Qed.

Lemma calloc_null_inv w count size w1 :
  calloc count size w = Done NULL w1 ->
  heap w1 = heap w /\ stderr w1 = stderr w /\ frees w1 = frees w.
Proof.
  unfold calloc. destruct (SIZE_MAX <? count * size).
  - unfold refuse. intros [= <-]. done.
  - apply malloc_null_inv.
Qed.

Lemma malloc_grant_inv w size p w1 :
  malloc size w = Done p w1 -> p <> NULL ->
  heap w !! p = None /\ heap w1 = <[p := Block size ∅]> (heap w) /\
  stderr w1 = stderr w /\ frees w1 = frees w /\ errno w1 = errno w.
Proof.
  intros H Hp. destruct (malloc_inv _ _ _ _ H) as [(_ & ? & ->) | [? _]]; done.
Qed.

Lemma calloc_grant_inv w count size p w1 :
  calloc count size w = Done p w1 -> p <> NULL ->
  heap w !! p = None /\ heap w1 = <[p := Block (count * size) ∅]> (heap w) /\
  stderr w1 = stderr w /\ frees w1 = frees w /\ errno w1 = errno w.
Proof.
  unfold calloc. destruct (SIZE_MAX <? count * size).
  - unfold refuse. intros [= <- <-]. done.
  - apply malloc_grant_inv.
Qed.

Lemma realloc_inv w p size q w1 :
  realloc p size w = Done q w1 ->
  (q = NULL /\
   (heap w1 = heap w \/
    size = 0 /\ p <> NULL /\ heap w1 = delete p (heap w)) /\
   stderr w1 = stderr w /\ frees w1 = frees w)
  \/
  (q <> NULL /\ (q = p \/ heap w !! q = None) /\ is_Some (heap w1 !! q) /\
   (forall x, x <> p -> x <> q -> heap w1 !! x = heap w !! x) /\
   stderr w1 = stderr w /\ frees w1 = frees w /\ errno w1 = errno w).
Proof.
  unfold realloc. destruct (Z.eqb_spec p NULL) as [-> | Hp].
  - intros H. destruct (Z.eq_dec q NULL) as [-> | Hq].
    + left. destruct (malloc_null_inv _ _ _ H) as (? & ? & ?). auto.
    + right. destruct (malloc_grant_inv _ _ _ _ H Hq) as (? & Hh & ? & ? & ?).
      repeat split; try done; [auto | |].
      * rewrite Hh, lookup_insert_eq. eauto.
      * intros x _ Hx. rewrite Hh. apply lookup_insert_ne. done.
  - destruct (heap w !! p) as [b|] eqn:Hb; [| discriminate].
    destruct (next_answer w) as [c o].
    destruct (Z.eqb_spec c p) as [-> | Hcp].
    + intros [= <- <-]. right. wsimpl. repeat split; try done; [auto | |].
      * rewrite lookup_insert_eq. eauto.
      * intros x _ Hx. apply lookup_insert_ne. done.
    + destruct (usable (heap w) c) eqn:Hu.
      * intros [= <- <-]. apply usable_true in Hu as [Hc Hfresh].
        right. wsimpl. repeat split; try done; [auto | |].
        -- rewrite lookup_insert_eq. eauto.
        -- intros x Hxp Hxc. rewrite lookup_insert_ne by done.
           apply lookup_delete_ne. done.
      * destruct (Z.eqb_spec size 0) as [-> | Hsz];
          destruct (Z.eqb_spec c NULL) as [-> | Hc]; cbn [andb].
        -- intros [= <- <-]. left. wsimpl. auto 6.
        -- unfold refuse. intros [= <- <-]. left. auto.
        -- unfold refuse. intros [= <- <-]. left. auto.
        -- unfold refuse. intros [= <- <-]. left. auto.
Qed.

(** A [NULL] from [realloc] for a size that is not 0, or for no block,
    leaves every allocation as it was. *)
Lemma realloc_null_keeps w p size w1 :
  realloc p size w = Done NULL w1 -> size <> 0 \/ p = NULL ->
  heap w1 = heap w.
Proof.
  intros H Hsz.
  destruct (realloc_inv _ _ _ _ _ H)
    as [(_ & [Hh | (? & ? & _)] & _) | [? _]]; [done | | done].
  destruct Hsz; done.
Qed.

(** An allocation that no record of [l] and no manager [m] lives in can be
    added, rewritten or removed without the registry noticing. *)
Lemma registry_insert_fresh h m l p b :
  registry h m l -> h !! p = None -> registry (<[p := b]> h) m l.
Proof.
  intros Hreg Hp. eapply registry_frame; [done |].
  intros x Hx. apply lookup_insert_ne. intros ->.
  destruct (registry_live _ _ _ _ Hreg Hx) as [_ [? ?]]. congruence.
Qed.

Lemma blocks_live_fresh h m l p :
  registry h m l -> blocks_live h m l -> h !! p = None ->
  p <> m /\ (p ∉ l.*1) /\ (p ∉ l.*2).
Proof.
  intros Hreg [_ Hlive] Hp. repeat split.
  - intros ->. destruct (registry_live _ _ _ m Hreg) as [_ [? ?]];
      [auto | congruence].
  - intros Hin. destruct (registry_live _ _ _ p Hreg) as [_ [? ?]];
      [auto | congruence].
  - intros Hin. destruct (Hlive p Hin) as (_ & [? ?] & _). congruence.
Qed.

(** * The claims *)

(** C5.  When the allocator returns [NULL] to [mm_malloc] or to [mm_calloc],
    [alloc_err] is called once, with the caller's file, function and line and
    with the value [errno] has after the failed request; the call returns
    [NULL]; no allocation is touched and nothing is freed, so that every
    registry is as it was.  With no manager ([mem_manager] is [NULL]) the
    call returns what the allocator returned and every registry is as it
    was, whether the request succeeds or not. *)
Theorem allocation_failure_reported
  (fuel : nat) (size count : Z) (m : ptr) (file func : string) (line : Z)
  (w : world) :
  (forall w1, malloc size w = Done NULL w1 ->
     exists w',
       mm_malloc fuel size m file func line w = Done NULL w' /\
       stderr w' = stderr w ++ [Diag file func line (errno w1)] /\
       heap w' = heap w /\ frees w' = frees w) /\
  (forall w1, calloc count size w = Done NULL w1 ->
     exists w',
       mm_calloc fuel count size m file func line w = Done NULL w' /\
       stderr w' = stderr w ++ [Diag file func line (errno w1)] /\
       heap w' = heap w /\ frees w' = frees w) /\
  (forall p w1, malloc size w = Done p w1 ->
     exists w',
       mm_malloc fuel size NULL file func line w = Done p w' /\
       frees w' = frees w /\
       forall m' l, registry (heap w) m' l -> registry (heap w') m' l) /\
  (forall p w1, calloc count size w = Done p w1 ->
     exists w',
       mm_calloc fuel count size NULL file func line w = Done p w' /\
       frees w' = frees w /\
       forall m' l, registry (heap w) m' l -> registry (heap w') m' l).
Proof.
  split; [| split; [| split]].
  - intros w1 H. destruct (malloc_null_inv _ _ _ H) as (Hh & Hs & Hf).
    unfold mm_malloc. rewrite (bind_done _ _ _ _ _ H). simpl.
    eexists. split; [reflexivity |]. wsimpl. rewrite Hh, Hs, Hf. done.
  - intros w1 H. destruct (calloc_null_inv _ _ _ _ H) as (Hh & Hs & Hf).
    unfold mm_calloc. rewrite (bind_done _ _ _ _ _ H). simpl.
    eexists. split; [reflexivity |]. wsimpl. rewrite Hh, Hs, Hf. done.
  - intros p w1 H. unfold mm_malloc. rewrite (bind_done _ _ _ _ _ H).
    destruct (Z.eqb_spec p NULL) as [-> | Hp].
    + destruct (malloc_null_inv _ _ _ H) as (Hh & Hs & Hf).
      eexists. split; [reflexivity |]. wsimpl. rewrite Hh, Hf. done.
    + destruct (malloc_grant_inv _ _ _ _ H Hp) as (Hfr & Hh & _ & Hf & _).
      eexists. split; [reflexivity |]. split; [done |].
      intros m' l Hreg. rewrite Hh. apply registry_insert_fresh; done.
  - intros p w1 H. unfold mm_calloc. rewrite (bind_done _ _ _ _ _ H).
    destruct (Z.eqb_spec p NULL) as [-> | Hp].
    + destruct (calloc_null_inv _ _ _ _ H) as (Hh & Hs & Hf).
      eexists. split; [reflexivity |]. wsimpl. rewrite Hh, Hf. done.
    + destruct (calloc_grant_inv _ _ _ _ _ H Hp) as (Hfr & Hh & _ & Hf & _).
      eexists. split; [reflexivity |]. split; [done |].
      intros m' l Hreg. rewrite Hh. apply registry_insert_fresh; done.
Qed.

(** C4.  When [realloc] returns [NULL], [mm_realloc] reports the failure
    once and returns [NULL].  It calls [free] on nothing and writes no
    allocation: the heap is as [realloc] left it.  The registry of a manager
    that the block is no part of holds the same records with the same
    addresses.  When the size is not 0 (or there is no block), [realloc]
    itself has left every allocation as it was, the block included. *)
Theorem mm_realloc_failure_keeps_registry
  (fuel : nat) (p : ptr) (size : Z) (m : ptr) (file func : string) (line : Z)
  (w w1 : world) :
  realloc p size w = Done NULL w1 ->
  exists w',
    mm_realloc fuel p size m file func line w = Done NULL w' /\
    stderr w' = stderr w ++ [Diag file func line (errno w1)] /\
    frees w' = frees w /\
    heap w' = heap w1 /\
    (forall l, registry (heap w) m l -> p <> m -> p ∉ l.*1 ->
               registry (heap w') m l) /\
    (size <> 0 \/ p = NULL -> heap w' = heap w).
Proof.
  intros H.
  destruct (realloc_inv _ _ _ _ _ H) as [(_ & Hh & Hs & Hf) | [? _]]; [| done].
  unfold mm_realloc. rewrite (bind_done _ _ _ _ _ H). simpl.
  eexists. split; [reflexivity |]. wsimpl.
  split; [rewrite Hs; done |]. split; [done |]. split; [done |]. split.
  - intros l Hreg Hpm Hpn. destruct Hh as [-> | (_ & _ & ->)]; [done |].
    eapply registry_frame; [done |]. intros x Hx.
    apply lookup_delete_ne. destruct Hx as [-> | Hx]; [done |].
    intros ->. done.
  - intros Hsz. eapply realloc_null_keeps; done.
Qed.

(** C6.  [mm_add] on a registry holding the records [l]: when the
    allocation of the node succeeds, one record for [mem] is appended after
    the records of [l], which keep their order, [mem] itself is returned and
    the sequence is one longer; the call fails, returning [NULL] and leaving
    the registry as it was, only when that allocation fails. *)
Theorem mm_add_appends
  (fuel : nat) (m mem : ptr) (l : list record) (w : world)
  (p : ptr) (w1 : world) :
  registry (heap w) m l -> (length l <= fuel)%nat ->
  malloc sizeof_memory_address w = Done p w1 ->
  (p <> NULL ->
     exists w',
       mm_add fuel m mem w = Done mem w' /\
       registry (heap w') m (l ++ [(p, mem)]) /\
       length (l ++ [(p, mem)]) = S (length l)) /\
  (p = NULL ->
     mm_add fuel m mem w = Done NULL w1 /\ registry (heap w1) m l).
Proof.
  intros Hreg Hf Hmal. split.
  - intros Hp.
    destruct (mm_add_granted _ _ _ mem _ _ _ Hreg Hf Hmal Hp)
      as (w' & Hrun & Hreg' & _).
    exists w'. repeat split; try done. rewrite length_app. simpl. lia.
  - intros ->. destruct (mm_add_refused _ m mem fuel _ Hmal) as (Hrun & Hh & _).
    split; [done |]. rewrite Hh. done.
Qed.

(** C1, as far as the code goes.  [mm_free_all] on a registry of [N] records
    whose blocks are live returns [N] and releases every block and every
    node.  It does not write the [head] member of the manager, which keeps
    the address of the released first node: when [N] is not 0 the registry
    is not left empty, and a second [mm_free_all] reads released memory
    instead of returning 0. *)
Theorem mm_free_all_leaves_head
  (fuel : nat) (m : ptr) (l : list record) (w : world) :
  registry (heap w) m l -> blocks_live (heap w) m l ->
  (length l < fuel)%nat -> Z.of_nat (length l) <= INT_MAX ->
  exists w',
    mm_free_all fuel m w = Done (Z.of_nat (length l)) w' /\
    (forall x, x ∈ l.*1 \/ x ∈ l.*2 -> heap w' !! x = None) /\
    field_at (heap w') m f_head = field_at (heap w) m f_head /\
    (l = [] -> mm_free_all fuel m w' = Done 0 w') /\
    (l <> [] ->
       ~ registry (heap w') m [] /\ mm_free_all fuel m w' = Undefined).
Proof.
  intros Hreg Hlive Hf Hmax.
  pose proof (mm_free_all_done _ _ _ _ Hreg Hlive Hf Hmax) as Hrun.
  pose proof (blocks_live_not_manager _ _ _ Hlive) as Hma.
  destruct Hreg as (head & Hman & Hs & Hnm).
  pose proof Hman as (Hm & Hh & _).
  eexists. split; [exact Hrun |]. wsimpl.
  assert (field_at (release_all (heap w) l) m f_head
          = field_at (heap w) m f_head) as Hhead.
  { apply field_at_agree. apply release_all_lookup_ne; done. }
  split; [| split; [| split]].
  - intros x Hx. apply release_all_dead. done.
  - done.
  - intros ->. simpl. rewrite app_nil_r.
    unfold lseg in Hs. simpl in Hs. subst head.
    unfold mm_free_all. step_load.
    destruct fuel as [| fuel]; [simpl in Hf; lia |]. reflexivity.
  - intros Hne. destruct l as [| [q a] l]; [done |].
    unfold lseg in Hs. simpl in Hs. destruct Hs as (-> & Hq & _).
    assert (release_all (heap w) ((q, a) :: l) !! q = None) as Hdead.
    { apply release_all_dead. left. rewrite fmap_cons. apply elem_of_cons.
      auto. }
    split.
    + intros (head' & (_ & Hh' & _) & Hs' & _).
      unfold lseg in Hs'. simpl in Hs'. subst head'. congruence.
    + unfold mm_free_all.
      erewrite bind_done;
        [| apply load_ptr_done; wsimpl; rewrite Hhead; exact Hh].
      destruct fuel as [| fuel]; [simpl in Hf; lia |].
      cbn [mm_free_recurse].
      destruct (Z.eqb_spec q NULL) as [Heq0 | _]; [done |].
      do 2 (rewrite bind_undefined; [done |]).
      apply load_ptr_dead. wsimpl. done.
Qed.

(** C7.  [free_mem_manager(NULL)] returns -1 and changes nothing.  On a
    registry whose blocks are live it calls [mm_free_all], frees the manager
    after that, and returns 0, for any number of records, none included. *)
Theorem free_mem_manager_releases_everything (fuel : nat) (w : world) :
  free_mem_manager fuel NULL w = Done (-1) w /\
  forall m l,
    registry (heap w) m l -> blocks_live (heap w) m l ->
    (length l < fuel)%nat -> Z.of_nat (length l) <= INT_MAX ->
    exists w',
      free_mem_manager fuel m w = Done 0 w' /\
      frees w' = frees w ++ release_order l ++ [m] /\
      heap w' !! m = None /\
      (forall x, x ∈ l.*1 \/ x ∈ l.*2 -> heap w' !! x = None) /\
      (forall x, x <> m -> x ∉ l.*1 -> x ∉ l.*2 ->
                 heap w' !! x = heap w !! x) /\
      stderr w' = stderr w.
Proof.
  split; [reflexivity |].
  intros m l Hreg Hlive Hf Hmax.
  pose proof (mm_free_all_done _ _ _ _ Hreg Hlive Hf Hmax) as Hrun.
  pose proof (blocks_live_not_manager _ _ _ Hlive) as Hma.
  destruct Hreg as (head & Hman & Hs & Hnm).
  pose proof Hman as (Hm & Hh & _ & _ & Hfa).
  unfold free_mem_manager.
  destruct (Z.eqb_spec m NULL) as [Heq0 | _]; [done |].
  step_load_fn. cbn [call_mm_free_all].
  rewrite (bind_done _ _ _ _ _ Hrun).
  erewrite bind_done; cycle 1.
  { apply free_done; wsimpl; [done |].
    rewrite release_all_lookup_ne by done. eapply field_at_live. exact Hh. }
  eexists. split; [reflexivity |]. wsimpl.
  split; [| split; [| split; [| split]]].
  - rewrite <- app_assoc. done.
  - apply lookup_delete_eq.
  - intros x Hx. destruct (decide (x = m)) as [-> | Hxm];
      [apply lookup_delete_eq |].
    rewrite lookup_delete_ne by done. apply release_all_dead. done.
  - intros x Hxm Hx1 Hx2. rewrite lookup_delete_ne by done.
    apply release_all_lookup_ne; done.
  - done.
Qed.

Lemma blocks_live_insert_fresh h m l p b :
  blocks_live h m l -> h !! p = None -> blocks_live (<[p := b]> h) m l.
Proof.
  intros [Hnd Hlive] Hp. split; [done |].
  intros a Ha. destruct (Hlive a Ha) as (? & [? Hl] & ? & ?).
  repeat split; try done.
  rewrite lookup_insert_ne by (intros ->; congruence). eauto.
Qed.

(** The tracking step shared by [mm_malloc] and [mm_calloc], when the
    allocation of the node fails. *)
Lemma tracking_fails_silently (fuel : nat) m l mem w1 w2 :
  registry (heap w1) m l ->
  malloc sizeof_memory_address w1 = Done NULL w2 ->
  ((if m =? NULL then ret tt
    else f <- load_fn m f_mm_add ;; call_mm_add f fuel m mem ;; ret tt) ;;
   ret mem) w1 = Done mem w2.
Proof.
  intros (head & (Hm & _ & Hfa & _) & _) Hmal.
  destruct (Z.eqb_spec m NULL) as [Heq0 | _]; [done |].
  rewrite bind_assoc. step_load_fn. cbn [call_mm_add]. rewrite bind_assoc.
  destruct (mm_add_refused _ m mem fuel _ Hmal) as [Hrun _].
  rewrite (bind_done _ _ _ _ _ Hrun). reflexivity.
Qed.

Lemma untracked_block_survives (fuel : nat) m l p b w w2 :
  registry (heap w) m l -> blocks_live (heap w) m l ->
  (length l < fuel)%nat -> Z.of_nat (length l) <= INT_MAX ->
  heap w !! p = None -> heap w2 = <[p := b]> (heap w) ->
  registry (heap w2) m l /\ (p ∉ l.*2) /\ is_Some (heap w2 !! p) /\
  exists w3,
    mm_free_all fuel m w2 = Done (Z.of_nat (length l)) w3 /\
    is_Some (heap w3 !! p) /\
    frees w3 = frees w2 ++ release_order l /\ p ∉ release_order l.
Proof.
  intros Hreg Hlive Hf Hmax Hfresh Hh2.
  destruct (blocks_live_fresh _ _ _ _ Hreg Hlive Hfresh) as (Hpm & Hp1 & Hp2).
  assert (registry (heap w2) m l) as Hreg2.
  { rewrite Hh2. apply registry_insert_fresh; done. }
  assert (blocks_live (heap w2) m l) as Hlive2.
  { rewrite Hh2. apply blocks_live_insert_fresh; done. }
  assert (is_Some (heap w2 !! p)) as Hp.
  { rewrite Hh2, lookup_insert_eq. eauto. }
  repeat split; try done.
  eexists. split; [apply mm_free_all_done; done |]. wsimpl.
  repeat split.
  - rewrite release_all_lookup_ne by done. done.
  - rewrite elem_of_release_order. tauto.
Qed.

(** C8.  In [mm_malloc] and [mm_calloc], when the block is allocated and
    the allocation of its node then fails, the call returns the block and
    prints nothing; the registry holds the records it held, the block is not
    among them, and a later [mm_free_all] leaves the block allocated. *)
Theorem insert_failure_is_silent
  (fuel : nat) (size count : Z) (m : ptr) (file func : string) (line : Z)
  (l : list record) (w : world) :
  registry (heap w) m l -> blocks_live (heap w) m l ->
  (length l < fuel)%nat -> Z.of_nat (length l) <= INT_MAX ->
  (forall p w1 w2,
     malloc size w = Done p w1 -> p <> NULL ->
     malloc sizeof_memory_address w1 = Done NULL w2 ->
     mm_malloc fuel size m file func line w = Done p w2 /\
     stderr w2 = stderr w /\
     registry (heap w2) m l /\ (p ∉ l.*2) /\ is_Some (heap w2 !! p) /\
     exists w3,
       mm_free_all fuel m w2 = Done (Z.of_nat (length l)) w3 /\
       is_Some (heap w3 !! p) /\
       frees w3 = frees w2 ++ release_order l /\ p ∉ release_order l) /\
  (forall p w1 w2,
     calloc count size w = Done p w1 -> p <> NULL ->
     malloc sizeof_memory_address w1 = Done NULL w2 ->
     mm_calloc fuel count size m file func line w = Done p w2 /\
     stderr w2 = stderr w /\
     registry (heap w2) m l /\ (p ∉ l.*2) /\ is_Some (heap w2 !! p) /\
     exists w3,
       mm_free_all fuel m w2 = Done (Z.of_nat (length l)) w3 /\
       is_Some (heap w3 !! p) /\
       frees w3 = frees w2 ++ release_order l /\ p ∉ release_order l).
Proof.
  intros Hreg Hlive Hf Hmax. split.
  - intros p w1 w2 Hblk Hp Hnode.
    destruct (malloc_grant_inv _ _ _ _ Hblk Hp) as (Hfresh & Hh1 & Hs1 & _).
    destruct (malloc_null_inv _ _ _ Hnode) as (Hh2 & Hs2 & _).
    assert (registry (heap w1) m l) as Hreg1.
    { rewrite Hh1. apply registry_insert_fresh; done. }
    split; [| split; [congruence |]].
    + unfold mm_malloc. rewrite (bind_done _ _ _ _ _ Hblk).
      destruct (Z.eqb_spec p NULL) as [Heq0 | _]; [done |].
      eapply tracking_fails_silently; done.
    + apply (untracked_block_survives fuel m l p (Block size ∅) w w2);
        try done. congruence.
  - intros p w1 w2 Hblk Hp Hnode.
    destruct (calloc_grant_inv _ _ _ _ _ Hblk Hp) as (Hfresh & Hh1 & Hs1 & _).
    destruct (malloc_null_inv _ _ _ Hnode) as (Hh2 & Hs2 & _).
    assert (registry (heap w1) m l) as Hreg1.
    { rewrite Hh1. apply registry_insert_fresh; done. }
    split; [| split; [congruence |]].
    + unfold mm_calloc. rewrite (bind_done _ _ _ _ _ Hblk).
      destruct (Z.eqb_spec p NULL) as [Heq0 | _]; [done |].
      eapply tracking_fails_silently; done.
    + apply (untracked_block_survives fuel m l p (Block (count * size) ∅)
                                      w w2); try done. congruence.
Qed.

(** [mm_free] on an address that a record holds, in terms of the sequence. *)
Lemma mm_free_found (fuel : nat) m mem l w :
  registry (heap w) m l -> (length l < fuel)%nat ->
  mem ∈ l.*2 ->
  mem <> NULL -> is_Some (heap w !! mem) -> mem <> m -> mem ∉ l.*1 ->
  exists w',
    mm_free fuel m mem w = Done 0 w' /\
    registry (heap w') m (remove_first mem l) /\
    frees w' = frees w ++ [mem; first_match mem l] /\
    heap w' !! mem = None /\ heap w' !! first_match mem l = None /\
    (length (remove_first mem l) < length l)%nat.
Proof.
  intros Hreg Hf Hin Hmem Hlive Hmm Hmn.
  destruct (first_match_split _ _ Hin)
    as (l1 & q & l2 & -> & Hn1 & Hfm & _ & Hrm & _).
  destruct (mm_free_present _ _ _ _ _ _ _ Hreg Hf Hn1 Hmem Hlive Hmm Hmn)
    as (w' & Hrun & Hreg' & Hdm & Hdq & _ & Hfr & _).
  rewrite Hfm, Hrm. exists w'. repeat split; try done.
  rewrite !length_app. simpl. lia.
Qed.

(** C2, as the code has it.  [mm_free] on an address that no record holds
    returns -1 and leaves the world as it was.  On an address that a record
    holds (a live block, not part of the registry's own memory) it unlinks
    the first such record, frees the block and then the node, and returns 0.
    A later [mm_find_in_list] for the address returns the next record that
    holds it: [NULL] exactly when no other record did. *)
Theorem mm_free_releases_first_match
  (fuel : nat) (m mem : ptr) (l : list record) (w : world) :
  registry (heap w) m l -> (length l < fuel)%nat ->
  (mem ∉ l.*2 -> mm_free fuel m mem w = Done (-1) w) /\
  (mem ∈ l.*2 ->
   mem <> NULL -> is_Some (heap w !! mem) -> mem <> m -> mem ∉ l.*1 ->
   exists w',
     mm_free fuel m mem w = Done 0 w' /\
     registry (heap w') m (remove_first mem l) /\
     frees w' = frees w ++ [mem; first_match mem l] /\
     heap w' !! mem = None /\ heap w' !! first_match mem l = None /\
     mm_find_in_list fuel m mem w'
     = Done (first_match mem (remove_first mem l)) w' /\
     (first_match mem (remove_first mem l) = NULL
      <-> mem ∉ (remove_first mem l).*2)).
Proof.
  intros Hreg Hf. split; [apply mm_free_absent; done |].
  intros Hin Hmem Hlive Hmm Hmn.
  destruct (mm_free_found _ _ _ _ _ Hreg Hf Hin Hmem Hlive Hmm Hmn)
    as (w' & Hrun & Hreg' & Hfr & Hdm & Hdq & Hlen).
  exists w'. repeat split; try done.
  - apply mm_find_in_list_done; [done | lia].
  - destruct Hreg' as (head & _ & Hs & _).
    apply (first_match_NULL_iff _ _ _ mem Hs).
  - destruct Hreg' as (head & _ & Hs & _).
    apply (first_match_NULL_iff _ _ _ mem Hs).
Qed.

Lemma first_match_snoc mem l x :
  mem ∈ l.*2 -> first_match mem (l ++ [x]) = first_match mem l.
Proof.
  induction l as [|[q a] l IH]; intros Hin.
  - apply elem_of_nil in Hin. done.
  - rewrite fmap_cons in Hin. simpl.
    destruct (Z.eqb_spec a mem) as [-> | Hne]; [done |].
    apply elem_of_cons in Hin as [Heq | Hin]; [simpl in Heq; congruence |].
    auto.
Qed.

Lemma remove_first_snoc mem l x :
  mem ∈ l.*2 -> remove_first mem (l ++ [x]) = remove_first mem l ++ [x].
Proof.
  induction l as [|[q a] l IH]; intros Hin.
  - apply elem_of_nil in Hin. done.
  - rewrite fmap_cons in Hin. simpl.
    destruct (Z.eqb_spec a mem) as [-> | Hne]; [done |].
    apply elem_of_cons in Hin as [Heq | Hin]; [simpl in Heq; congruence |].
    simpl. rewrite IH; done.
Qed.

(** C10.  [mm_add] does not look for the address in the registry: adding an
    address that a record already holds appends a second record with that
    address.  [mm_find_in_list] then returns the earlier record, and
    [mm_free] releases the earlier record and leaves the new one in the
    sequence. *)
Theorem mm_add_accepts_duplicates
  (fuel : nat) (m a : ptr) (l : list record) (w : world)
  (p : ptr) (w1 : world) :
  registry (heap w) m l -> (length l + 1 < fuel)%nat ->
  a ∈ l.*2 ->
  malloc sizeof_memory_address w = Done p w1 -> p <> NULL ->
  exists w',
    mm_add fuel m a w = Done a w' /\
    registry (heap w') m (l ++ [(p, a)]) /\
    first_match a l ∈ l.*1 /\ first_match a l <> p /\
    mm_find_in_list fuel m a w' = Done (first_match a l) w' /\
    (a <> NULL -> is_Some (heap w !! a) -> a <> m -> a ∉ l.*1 ->
     exists w'',
       mm_free fuel m a w' = Done 0 w'' /\
       registry (heap w'') m (remove_first a l ++ [(p, a)]) /\
       heap w'' !! first_match a l = None /\
       is_Some (heap w'' !! p)).
Proof.
  intros Hreg Hf Hin Hmal Hp.
  destruct (mm_add_granted _ _ _ a fuel _ _ Hreg ltac:(lia) Hmal Hp)
    as (w' & Hrun & Hreg' & Hframe & _).
  destruct (malloc_grant_inv _ _ _ _ Hmal Hp) as (Hfresh & _).
  pose proof Hreg as (head & _ & Hs & _).
  destruct (first_match_found _ _ _ _ Hs Hin) as [Hq0 Hqin].
  assert (first_match a l <> p) as Hqp.
  { intros Heq. rewrite Heq in Hqin.
    destruct (registry_live _ _ _ p Hreg) as [_ [? ?]]; [auto | congruence]. }
  assert (length (l ++ [(p, a)]) < fuel)%nat as Hf'.
  { rewrite length_app. simpl. lia. }
  exists w'. repeat split; try done.
  - rewrite <- (first_match_snoc a l (p, a)) by done.
    apply mm_find_in_list_done; done.
  - intros Ha Hlive Ham Han.
    assert (a <> p) as Hap by (intros ->; destruct Hlive; congruence).
    assert (heap w' !! a = heap w !! a) as Hsame by (apply Hframe; done).
    destruct (mm_free_found fuel m a (l ++ [(p, a)]) w')
      as (w'' & Hfree & Hreg'' & _ & _ & Hdead & _).
    all: try done.
    + rewrite fmap_app. apply elem_of_app. auto.
    + rewrite Hsame. done.
    + rewrite fmap_app. apply not_elem_of_app. split; [done |].
      simpl. apply not_elem_of_cons. split; [done | apply not_elem_of_nil].
    + rewrite remove_first_snoc in Hreg'' by done.
      rewrite first_match_snoc in Hdead by done.
      exists w''. repeat split; try done.
      destruct (registry_live _ _ _ p Hreg'') as [_ ?]; [| done].
      right. rewrite fmap_app. apply elem_of_app. right. simpl.
      apply elem_of_cons. auto.
Qed.

(** ** mm_realloc *)

Lemma retarget_length old new l : length (retarget old new l) = length l.
Proof.
  induction l as [|[q a] l IH]; simpl; [done |].
  destruct (a =? old); simpl; congruence.
Qed.

Lemma retarget_absent old new l : old ∉ l.*2 -> retarget old new l = l.
Proof.
  induction l as [|[q a] l IH]; intros Hn; simpl; [done |].
  rewrite fmap_cons, not_elem_of_cons in Hn. destruct Hn as [Hne Hn].
  destruct (Z.eqb_spec a old); [simpl in Hne; congruence |].
  rewrite IH; done.
Qed.

Lemma retarget_has_new old new l :
  old ∈ l.*2 -> new ∈ (retarget old new l).*2.
Proof.
  intros Hin.
  destruct (first_match_split _ _ Hin) as (l1 & q & l2 & _ & _ & _ & _ & _ & Hrt).
  rewrite Hrt, fmap_app, fmap_cons. apply elem_of_app. right.
  apply elem_of_cons. auto.
Qed.

Lemma retarget_keeps_old old new l :
  new <> old ->
  (old ∈ (retarget old new l).*2 <-> old ∈ (remove_first old l).*2).
Proof.
  intros Hne. destruct (decide (old ∈ l.*2)) as [Hin | Hnin].
  - destruct (first_match_split _ _ Hin)
      as (l1 & q & l2 & _ & Hn1 & _ & _ & Hrm & Hrt).
    rewrite Hrt, Hrm, !fmap_app, fmap_cons, !elem_of_app, elem_of_cons.
    simpl. split; [| tauto]. intros [? | [? | ?]]; [auto | congruence | auto].
  - rewrite retarget_absent, remove_first_absent by done. done.
Qed.

(** Writing a new address in the node of the first record that holds the
    old one. *)
Lemma registry_retarget h m l old new :
  registry h m l -> old ∈ l.*2 ->
  registry (heap_store h (first_match old l) f_addr (VPtr new)) m
           (retarget old new l).
Proof.
  intros (head & Hman & Hs & Hnm) Hin.
  pose proof (lseg_NoDup _ _ _ Hs) as Hnd.
  destruct (first_match_split _ _ Hin)
    as (l1 & q & l2 & -> & Hn1 & -> & _ & _ & Hrt).
  rewrite Hrt. clear Hrt.
  rewrite fmap_app, fmap_cons in Hnd, Hnm. simpl in Hnd, Hnm.
  apply NoDup_app in Hnd as (Hnd1 & Hdis & Hnd2).
  apply NoDup_cons in Hnd2 as [Hq2 Hnd2].
  apply not_elem_of_app in Hnm as [Hnm1 Hnm2].
  apply not_elem_of_cons in Hnm2 as [Hmq Hnm2].
  assert (q ∉ l1.*1) as Hq1.
  { intros Hq. apply (Hdis q Hq). apply elem_of_cons. auto. }
  unfold lseg in Hs. apply seg_app in Hs as (mid & Hs1 & Hs2).
  simpl in Hs2. destruct Hs2 as (-> & Hq & Ha & n & Hn & Hs2).
  assert (is_Some (h !! q)) as Hlq by (eapply field_at_live; done).
  exists head. split; [| split].
  - apply manager_at_store; [done |]. intros ->. done.
  - unfold lseg. apply seg_app. exists q. split.
    + apply seg_store; done.
    + simpl. rewrite field_at_store_eq by done.
      rewrite field_at_store_other by done.
      repeat split; try done. exists n. split; [done |].
      apply seg_store; done.
  - rewrite fmap_app, fmap_cons. simpl.
    apply not_elem_of_app. split; [done |]. apply not_elem_of_cons. done.
Qed.

Lemma mm_realloc_granted
  (fuel : nat) p size m file func line l w q w1 :
  registry (heap w) m l -> (length l < fuel)%nat ->
  p <> m -> p ∉ l.*1 ->
  realloc p size w = Done q w1 -> q <> NULL ->
  registry (heap w1) m l /\
  mm_realloc fuel p size m file func line w
  = Done q (if decide (p ∈ l.*2)
            then set_heap (heap_store (heap w1) (first_match p l) f_addr
                                      (VPtr q)) w1
            else w1) /\
  stderr w1 = stderr w.
Proof.
  intros Hreg Hf Hpm Hpn Hre Hq.
  destruct (realloc_inv _ _ _ _ _ Hre)
    as [[? _] | (_ & Hfresh & Hlq & Hsame & Hst & _)]; [done |].
  assert (registry (heap w1) m l) as Hreg1.
  { eapply registry_frame; [done |]. intros x Hx. apply Hsame.
    - destruct Hx as [-> | Hx]; [done | intros ->; done].
    - destruct Hfresh as [-> | Hfresh].
      + destruct Hx as [-> | Hx]; [done | intros ->; done].
      + intros ->. destruct (registry_live _ _ _ _ Hreg Hx) as [_ [? ?]].
        congruence. }
  split; [done |]. split; [| done].
  pose proof Hreg1 as (head & (Hm & _) & Hs & _).
  unfold mm_realloc. rewrite (bind_done _ _ _ _ _ Hre).
  destruct (Z.eqb_spec q NULL) as [Heq0 | _]; [done |].
  destruct (Z.eqb_spec m NULL) as [Heq0 | _]; [done |].
  rewrite bind_assoc.
  erewrite bind_done; [| apply mm_find_in_list_done; done].
  destruct (decide (p ∈ l.*2)) as [Hin | Hnin].
  - destruct (first_match_found _ _ _ _ Hs Hin) as [Hne Hfin].
    destruct (Z.eqb_spec (first_match p l) NULL) as [Heq0 | _]; [done |].
    erewrite bind_done; [reflexivity |].
    apply store_done. eapply seg_live; done.
  - rewrite first_match_absent by done. reflexivity.
Qed.

(** C3, as the code has it.  When [realloc] returns a block, [mm_realloc]
    returns it and prints nothing.  The address is written in the node of
    the first record that holds the old address: no record is added or
    removed, [mm_find_in_list] finds a record for the new address, and, the
    block having moved, it finds none for the old address exactly when no
    other record held it.  When no record holds the old address the
    registry is left as [realloc] left it and the block is returned all the
    same. *)
Theorem mm_realloc_retargets_first_match
  (fuel : nat) (p : ptr) (size : Z) (m : ptr) (file func : string) (line : Z)
  (l : list record) (w : world) (q : ptr) (w1 : world) :
  registry (heap w) m l -> (length l < fuel)%nat ->
  p <> m -> p ∉ l.*1 ->
  realloc p size w = Done q w1 -> q <> NULL ->
  exists w',
    mm_realloc fuel p size m file func line w = Done q w' /\
    stderr w' = stderr w /\
    registry (heap w') m (retarget p q l) /\
    length (retarget p q l) = length l /\
    (p ∉ l.*2 -> retarget p q l = l /\ w' = w1) /\
    (p ∈ l.*2 ->
       exists n, n <> NULL /\ mm_find_in_list fuel m q w' = Done n w') /\
    mm_find_in_list fuel m p w' = Done (first_match p (retarget p q l)) w' /\
    (q <> p ->
       (first_match p (retarget p q l) = NULL
        <-> p ∉ (remove_first p l).*2)).
Proof.
  intros Hreg Hf Hpm Hpn Hre Hq.
  destruct (mm_realloc_granted fuel p size m file func line l w q w1)
    as (Hreg1 & Hrun & Hst); try done.
  eexists. split; [exact Hrun |].
  set (w' := if decide (p ∈ l.*2)
             then set_heap (heap_store (heap w1) (first_match p l) f_addr
                                       (VPtr q)) w1
             else w1).
  assert (stderr w' = stderr w) as Hst'.
  { unfold w'. destruct (decide (p ∈ l.*2)); done. }
  assert (registry (heap w') m (retarget p q l)) as Hreg'.
  { unfold w'. destruct (decide (p ∈ l.*2)) as [Hin | Hnin].
    - wsimpl. apply registry_retarget; done.
    - rewrite retarget_absent by done. done. }
  assert (length (retarget p q l) < fuel)%nat as Hf'
    by (rewrite retarget_length; done).
  pose proof Hreg' as (head & _ & Hs' & _).
  split; [done |]. split; [done |]. split; [apply retarget_length |].
  split; [| split; [| split]].
  - intros Hnin. split; [apply retarget_absent; done |].
    unfold w'. destruct (decide (p ∈ l.*2)); done.
  - intros Hin. exists (first_match q (retarget p q l)). split.
    + eapply first_match_found; [done |]. apply retarget_has_new. done.
    + apply mm_find_in_list_done; done.
  - apply mm_find_in_list_done; done.
  - intros Hqp. rewrite (first_match_NULL_iff _ _ _ p Hs').
    rewrite retarget_keeps_old by done. done.
Qed.

(** C9, as the code has it.  A sequence of [mm_add] of addresses that
    differ from each other and from the addresses the registry holds leaves
    a registry in which no two records hold the same address.  ([mm_add]
    itself compares no addresses.) *)
Theorem distinct_inserts_stay_distinct
  (fuel : nat) (m : ptr) (mems : list Z) :
  forall (l : list record) (w : world),
    registry (heap w) m l -> NoDup (l.*2 ++ mems) ->
    (length l + length mems <= fuel)%nat ->
    exists w' l',
      mm_add_all fuel m mems w = Done tt w' /\
      registry (heap w') m l' /\ l `prefix_of` l' /\ NoDup l'.*2.
Proof.
  induction mems as [| a mems IH]; intros l w Hreg Hnd Hf.
  - exists w, l. rewrite app_nil_r in Hnd. done.
  - cbn [mm_add_all].
    destruct (malloc_total w sizeof_memory_address) as (p & w1 & Hmal).
    simpl in Hf.
    destruct (Z.eq_dec p NULL) as [-> | Hp].
    + destruct (mm_add_refused _ m a fuel _ Hmal) as (Hrun & Hh & _).
      rewrite (bind_done _ _ _ _ _ Hrun).
      apply IH; [rewrite Hh; done | | lia].
      apply NoDup_app in Hnd as (H1 & H2 & H3).
      apply NoDup_cons in H3 as [_ H3].
      apply NoDup_app. split; [done |]. split; [| done].
      intros x Hx Hx'. apply (H2 x Hx). apply elem_of_cons. auto.
    + destruct (mm_add_granted _ _ _ a fuel _ _ Hreg ltac:(lia) Hmal Hp)
        as (w' & Hrun & Hreg' & _).
      rewrite (bind_done _ _ _ _ _ Hrun).
      destruct (IH (l ++ [(p, a)]) w') as (w'' & l' & Hall & Hr & Hpre & Hnd').
      * done.
      * rewrite fmap_app. simpl. rewrite <- app_assoc. done.
      * rewrite length_app. simpl. lia.
      * exists w'', l'. repeat split; try done.
        etransitivity; [| done]. apply prefix_app_r. done.
Qed.

(** * The registry invariant along the program's own operations *)

Lemma manager_at_init h p :
  p <> NULL -> is_Some (h !! p) ->
  manager_at
    (heap_store
       (heap_store
          (heap_store (heap_store h p f_head (VPtr NULL))
                      p f_mm_add (VFn Fn_mm_add))
          p f_mm_free (VFn Fn_mm_free))
       p f_mm_free_all (VFn Fn_mm_free_all))
    p NULL.
Proof.
  intros Hp Hl. unfold manager_at. split; [done |].
  repeat split;
    repeat first
      [ rewrite field_at_store_eq by (rewrite ?heap_store_live; done)
      | rewrite field_at_store_other by done ];
    done.
Qed.

(** [init_mem_manager]: when the allocation succeeds the result is a manager
    with no record; when it fails the result is [NULL] and no allocation has
    changed. *)
Theorem init_mem_manager_empty_registry (w : world) (p : ptr) (w1 : world) :
  malloc sizeof_memory_manager w = Done p w1 ->
  (p <> NULL ->
     exists w',
       init_mem_manager w = Done p w' /\
       registry (heap w') p [] /\ blocks_live (heap w') p [] /\
       (forall x, x <> p -> heap w' !! x = heap w !! x)) /\
  (p = NULL -> init_mem_manager w = Done NULL w1 /\ heap w1 = heap w).
Proof.
  intros Hmal. split.
  - intros Hp.
    destruct (malloc_grant_inv _ _ _ _ Hmal Hp) as (Hfresh & Hh & _).
    destruct (malloc_inv _ _ _ _ Hmal) as [(_ & _ & ->) | [? _]]; [| done].
    set (h0 := <[p := Block sizeof_memory_manager ∅]> (heap w)).
    assert (is_Some (h0 !! p)) as H0
      by (unfold h0; rewrite lookup_insert_eq; eauto).
    set (h1 := heap_store h0 p f_head (VPtr NULL)).
    assert (is_Some (h1 !! p)) as H1 by (apply heap_store_live; done).
    set (h2 := heap_store h1 p f_mm_add (VFn Fn_mm_add)).
    assert (is_Some (h2 !! p)) as H2 by (apply heap_store_live; done).
    set (h3 := heap_store h2 p f_mm_free (VFn Fn_mm_free)).
    assert (is_Some (h3 !! p)) as H3 by (apply heap_store_live; done).
    unfold init_mem_manager. rewrite (bind_done _ _ _ _ _ Hmal).
    destruct (Z.eqb_spec p NULL) as [Heq0 | _]; [done |].
    do 4 step_store.
    eexists. split; [reflexivity |]. wsimpl.
    fold h0; fold h1; fold h2; fold h3.
    split; [| split].
    + exists NULL. split; [| split].
      * unfold h3, h2, h1. apply manager_at_init; done.
      * reflexivity.
      * apply not_elem_of_nil.
    + split; [constructor |]. intros a Ha. apply elem_of_nil in Ha. done.
    + intros x Hx. unfold h3, h2, h1, h0.
      rewrite !heap_store_lookup_ne by done. apply lookup_insert_ne. done.
  - intros ->. destruct (malloc_null_inv _ _ _ Hmal) as (Hh & _).
    unfold init_mem_manager. rewrite (bind_done _ _ _ _ _ Hmal). done.
Qed.

(** [mm_malloc] with a manager, when the block and its node are both
    allocated: the block is returned, one record for it is appended, and the
    blocks of the registry are still live and pairwise distinct. *)
Theorem mm_malloc_tracks_block
  (fuel : nat) (size : Z) (m : ptr) (file func : string) (line : Z)
  (l : list record) (w : world) (p : ptr) (w1 : world) (n : ptr) (w2 : world) :
  registry (heap w) m l -> blocks_live (heap w) m l ->
  (length l <= fuel)%nat ->
  malloc size w = Done p w1 -> p <> NULL ->
  malloc sizeof_memory_address w1 = Done n w2 -> n <> NULL ->
  exists w',
    mm_malloc fuel size m file func line w = Done p w' /\
    registry (heap w') m (l ++ [(n, p)]) /\
    blocks_live (heap w') m (l ++ [(n, p)]) /\
    stderr w' = stderr w /\ frees w' = frees w.
Proof.
  intros Hreg Hlive Hf Hblk Hp Hnode Hn.
  destruct (malloc_grant_inv _ _ _ _ Hblk Hp) as (Hfresh & Hh1 & Hs1 & Hf1 & _).
  destruct (malloc_grant_inv _ _ _ _ Hnode Hn) as (Hnfresh & _).
  destruct (blocks_live_fresh _ _ _ _ Hreg Hlive Hfresh) as (Hpm & Hp1 & Hp2).
  assert (registry (heap w1) m l) as Hreg1.
  { rewrite Hh1. apply registry_insert_fresh; done. }
  assert (n <> p) as Hnp.
  { intros ->. rewrite Hh1, lookup_insert_eq in Hnfresh. done. }
  destruct (mm_add_granted _ _ _ p fuel _ _ Hreg1 Hf Hnode Hn)
    as (w' & Hrun & Hreg' & Hframe & _ & Hs' & Hf' & _).
  pose proof Hreg1 as (head & (Hm & _ & Hfa & _) & _).
  exists w'. split; [| split; [done | split]].
  - unfold mm_malloc. rewrite (bind_done _ _ _ _ _ Hblk).
    destruct (Z.eqb_spec p NULL) as [Heq0 | _]; [done |].
    destruct (Z.eqb_spec m NULL) as [Heq0 | _]; [done |].
    rewrite bind_assoc. step_load_fn. cbn [call_mm_add]. rewrite bind_assoc.
    rewrite (bind_done _ _ _ _ _ Hrun). reflexivity.
  - destruct Hlive as [Hnd Hl]. split.
    + rewrite fmap_app. apply NoDup_app. split; [done |]. split.
      * intros x Hx Hx'. simpl in Hx'. apply elem_of_cons in Hx' as [-> | Hx'];
          [done | apply elem_of_nil in Hx'; done].
      * simpl. apply NoDup_singleton.
    + assert (forall a, a ∈ l.*2 \/ a = p ->
                a <> NULL /\ is_Some (heap w1 !! a) /\ a <> m /\ a ∉ l.*1)
        as Hall.
      { intros a [Ha | ->].
        - destruct (Hl a Ha) as (? & [b Hb] & ? & ?).
          repeat split; try done. rewrite Hh1.
          rewrite lookup_insert_ne by (intros ->; congruence). eauto.
        - repeat split; try done. rewrite Hh1, lookup_insert_eq. eauto. }
      intros a Ha. rewrite fmap_app in Ha. apply elem_of_app in Ha.
      assert (a ∈ l.*2 \/ a = p) as Ha'.
      { destruct Ha as [Ha | Ha]; [auto |]. simpl in Ha.
        apply elem_of_cons in Ha as [-> | Ha];
          [auto | apply elem_of_nil in Ha; done]. }
      destruct (Hall a Ha') as (Ha0 & [b Hb] & Ham & Han).
      assert (a <> n) as Haneq by (intros ->; congruence).
      repeat split; try done.
      * rewrite Hframe by done. eauto.
      * rewrite fmap_app. apply not_elem_of_app. split; [done |].
        simpl. apply not_elem_of_cons. split; [done | apply not_elem_of_nil].
  - split; congruence.
Qed.

(** * Beyond the claims *)

(** ** More on the sequence of records *)

Lemma retarget_nodes old new l : (retarget old new l).*1 = l.*1.
Proof.
  induction l as [|[q a] l IH]; [done |].
  cbn [retarget]. destruct (a =? old); rewrite !fmap_cons; simpl;
    [done | rewrite IH; done].
Qed.

Lemma retarget_same old l : retarget old old l = l.
Proof.
  induction l as [|[q a] l IH]; [done |].
  cbn [retarget]. destruct (Z.eqb_spec a old) as [-> | _]; [done |].
  rewrite IH. done.
Qed.

Lemma remove_first_length mem l :
  (length (remove_first mem l) <= length l)%nat.
Proof.
  induction l as [|[q a] l IH]; simpl; [lia |].
  destruct (a =? mem); simpl; lia.
Qed.

Lemma remove_first_gone mem l :
  NoDup l.*2 -> mem ∉ (remove_first mem l).*2.
Proof.
  induction l as [|[q a] l IH]; intros Hnd; cbn [remove_first].
  - apply not_elem_of_nil.
  - rewrite fmap_cons in Hnd. simpl in Hnd.
    apply NoDup_cons in Hnd as [Ha Hnd].
    destruct (Z.eqb_spec a mem) as [-> | Hne]; [done |].
    rewrite fmap_cons. apply not_elem_of_cons. split; [auto | auto].
Qed.

(** The record that is retargeted is the first one to hold the new address,
    when no record held it before or when it is the old address. *)
Lemma first_match_retarget old new l :
  old ∈ l.*2 -> NoDup (retarget old new l).*2 ->
  first_match new (retarget old new l) = first_match old l.
Proof.
  intros Hin Hnd.
  destruct (first_match_split _ _ Hin)
    as (l1 & q & l2 & -> & Hn1 & -> & _ & _ & Hrt).
  rewrite Hrt in Hnd |- *. apply first_match_app.
  rewrite fmap_app, fmap_cons in Hnd. simpl in Hnd.
  apply NoDup_app in Hnd as (_ & Hdis & _).
  intros Hx. apply (Hdis new Hx). apply elem_of_cons. auto.
Qed.

Lemma first_match_snoc_other x mem l p :
  x <> mem -> first_match x (l ++ [(p, mem)]) = first_match x l.
Proof.
  intros Hne. induction l as [|[q a] l IH]; simpl.
  - destruct (Z.eqb_spec mem x); [congruence | done].
  - destruct (a =? x); done.
Qed.

Lemma first_match_snoc_new mem l p :
  mem ∉ l.*2 -> first_match mem (l ++ [(p, mem)]) = p.
Proof.
  intros Hn. rewrite <- (app_nil_r [(p, mem)]). simpl.
  apply first_match_app. done.
Qed.

Lemma first_match_holds h p l mem :
  lseg h p l -> mem ∈ l.*2 ->
  field_at h (first_match mem l) f_addr = Some (VPtr mem).
Proof.
  intros Hs Hin.
  destruct (first_match_split _ _ Hin) as (l1 & q & l2 & -> & _ & -> & _).
  unfold lseg in Hs. apply seg_app in Hs as (mid & _ & Hs).
  simpl in Hs. tauto.
Qed.

Lemma NoDup_release_order l :
  NoDup l.*1 -> NoDup l.*2 -> (forall a, a ∈ l.*2 -> a ∉ l.*1) ->
  NoDup (release_order l).
Proof.
  induction l as [|[q a] l IH]; intros H1 H2 Hd; cbn [release_order].
  - constructor.
  - rewrite fmap_cons in H1, H2. simpl in H1, H2.
    apply NoDup_cons in H1 as [Hq H1]. apply NoDup_cons in H2 as [Ha H2].
    assert (a <> q /\ a ∉ l.*1) as [Haq Hal].
    { specialize (Hd a). rewrite !fmap_cons in Hd. simpl in Hd.
      rewrite not_elem_of_cons in Hd. apply Hd. apply elem_of_cons. auto. }
    assert (q ∉ l.*2) as Hql.
    { intros Hin. specialize (Hd q). rewrite !fmap_cons in Hd. simpl in Hd.
      rewrite not_elem_of_cons in Hd. destruct Hd as [Hd _]; [| done].
      apply elem_of_cons. auto. }
    apply NoDup_app. split; [| split].
    + apply IH; try done. intros b Hb Hb'. apply (Hd b).
      * rewrite fmap_cons. apply elem_of_cons. auto.
      * rewrite fmap_cons. apply elem_of_cons. auto.
    + intros x Hx Hx'. apply elem_of_release_order in Hx.
      apply elem_of_cons in Hx' as [-> | Hx'].
      * tauto.
      * apply elem_of_cons in Hx' as [-> | Hx']; [tauto |].
        apply elem_of_nil in Hx'. done.
    + apply NoDup_cons. split.
      * intros Hin. apply elem_of_cons in Hin as [? | Hin]; [done |].
        apply elem_of_nil in Hin. done.
      * apply NoDup_singleton.
Qed.

(** ** More on the allocator *)

Lemma calloc_total w count size : exists p w1, calloc count size w = Done p w1.
Proof.
  unfold calloc. destruct (SIZE_MAX <? count * size).
  - unfold refuse. eauto.
  - apply malloc_total.
Qed.

Lemma realloc_total w p size :
  p = NULL \/ is_Some (heap w !! p) -> exists q w1, realloc p size w = Done q w1.
Proof.
  intros Hp. unfold realloc. destruct (Z.eqb_spec p NULL) as [-> | Hne].
  - apply malloc_total.
  - destruct Hp as [? | [b Hb]]; [done |]. rewrite Hb.
    destruct (next_answer w) as [c o].
    destruct (c =? p); [eauto |].
    destruct (usable (heap w) c); [eauto |].
    destruct ((size =? 0) && (c =? NULL)); unfold refuse; eauto.
Qed.

(** A block that [realloc] moved is no longer allocated at its old
    address. *)
Lemma realloc_moved_inv w p size q w1 :
  realloc p size w = Done q w1 -> p <> NULL -> q <> NULL -> q <> p ->
  heap w1 !! p = None.
Proof.
  unfold realloc. intros H Hp Hq Hqp.
  destruct (Z.eqb_spec p NULL) as [? | _]; [done |].
  destruct (heap w !! p) as [b|] eqn:Hb; [| discriminate].
  destruct (next_answer w) as [c o].
  destruct (Z.eqb_spec c p) as [-> | Hcp].
  - injection H as <- <-. done.
  - destruct (usable (heap w) c) eqn:Hu.
    + injection H as <- <-. wsimpl.
      rewrite lookup_insert_ne by done. apply lookup_delete_eq.
    + destruct ((size =? 0) && (c =? NULL)); unfold refuse in H;
        injection H as <- <-; done.
Qed.

(** ** Looking an address up *)

(** [mm_find_in_list] on a registry returns without changing anything.  Its
    result is [NULL] exactly when no record holds [mem]; otherwise it is the
    node of the first record that holds [mem]. *)
Theorem mm_find_in_list_locates
  (fuel : nat) (m mem : ptr) (l : list record) (w : world) :
  registry (heap w) m l -> (length l < fuel)%nat ->
  exists ma,
    mm_find_in_list fuel m mem w = Done ma w /\
    (ma = NULL <-> mem ∉ l.*2) /\
    (ma <> NULL ->
       field_at (heap w) ma f_addr = Some (VPtr mem) /\
       exists l1 l2, l = l1 ++ (ma, mem) :: l2 /\ mem ∉ l1.*2).
Proof.
  intros Hreg Hf. exists (first_match mem l).
  pose proof Hreg as (head & _ & Hs & _).
  split; [apply mm_find_in_list_done; done |].
  split; [apply (first_match_NULL_iff _ _ _ mem Hs) |].
  intros Hne.
  assert (mem ∈ l.*2) as Hin.
  { destruct (decide (mem ∈ l.*2)) as [? | Hn]; [done |].
    apply first_match_absent in Hn. done. }
  split; [eapply first_match_holds; done |].
  destruct (first_match_split _ _ Hin) as (l1 & q & l2 & Hl & Hn1 & <- & _).
  exists l1, l2. done.
Qed.

(** After a successful [mm_add] of [mem], [mm_find_in_list] returns the new
    node for [mem] when no record held it before, and the node it returned
    before otherwise; for every other address it returns what it returned
    before the insert. *)
Theorem mm_add_then_find
  (fuel : nat) (m mem : ptr) (l : list record) (w : world)
  (p : ptr) (w1 : world) :
  registry (heap w) m l -> (length l + 1 < fuel)%nat ->
  malloc sizeof_memory_address w = Done p w1 -> p <> NULL ->
  exists w',
    mm_add fuel m mem w = Done mem w' /\
    (mem ∉ l.*2 -> mm_find_in_list fuel m mem w' = Done p w') /\
    (forall x ma,
       x <> mem \/ x ∈ l.*2 ->
       mm_find_in_list fuel m x w = Done ma w ->
       mm_find_in_list fuel m x w' = Done ma w').
Proof.
  intros Hreg Hf Hmal Hp.
  destruct (mm_add_granted _ _ _ mem fuel _ _ Hreg ltac:(lia) Hmal Hp)
    as (w' & Hrun & Hreg' & _).
  assert (length (l ++ [(p, mem)]) < fuel)%nat as Hf'.
  { rewrite length_app. simpl. lia. }
  exists w'. split; [done |]. split.
  - intros Hn. rewrite <- (first_match_snoc_new mem l p) by done.
    apply mm_find_in_list_done; done.
  - intros x ma Hx Hfind.
    rewrite (mm_find_in_list_done w m l x fuel) in Hfind by (done || lia).
    injection Hfind as <-.
    rewrite (mm_find_in_list_done w' m _ x fuel Hreg' Hf').
    f_equal. destruct (decide (x = mem)) as [-> | Hne].
    + destruct Hx as [? | Hin]; [done |]. apply first_match_snoc. done.
    + apply first_match_snoc_other. done.
Qed.

(** [mm_add] of [NULL]: the record is added and [NULL] is returned, which is
    also what a failed [mm_add] returns. *)
Theorem mm_add_null_result_is_ambiguous
  (fuel : nat) (m : ptr) (l : list record) (w : world) (p : ptr) (w1 : world) :
  registry (heap w) m l -> (length l <= fuel)%nat ->
  malloc sizeof_memory_address w = Done p w1 ->
  exists w',
    mm_add fuel m NULL w = Done NULL w' /\
    (p <> NULL -> registry (heap w') m (l ++ [(p, NULL)])) /\
    (p = NULL -> registry (heap w') m l).
Proof.
  intros Hreg Hf Hmal. destruct (Z.eq_dec p NULL) as [-> | Hp].
  - destruct (mm_add_refused _ m NULL fuel _ Hmal) as (Hrun & Hh & _).
    exists w1. split; [done |]. split; [done |]. intros _. rewrite Hh. done.
  - destruct (mm_add_granted _ _ _ NULL fuel _ _ Hreg Hf Hmal Hp)
      as (w' & Hrun & Hreg' & _).
    exists w'. split; [done |]. split; done.
Qed.

(** ** Keeping the registry in good order *)

(** The tracking step shared by [mm_malloc] and [mm_calloc], when the node
    is allocated. *)
Lemma tracking_succeeds (fuel : nat) m l mem w1 n w2 :
  registry (heap w1) m l -> (length l <= fuel)%nat ->
  malloc sizeof_memory_address w1 = Done n w2 -> n <> NULL ->
  exists w',
    ((if m =? NULL then ret tt
      else f <- load_fn m f_mm_add ;; call_mm_add f fuel m mem ;; ret tt) ;;
     ret mem) w1 = Done mem w' /\
    registry (heap w') m (l ++ [(n, mem)]) /\
    (forall x, x <> m -> x <> n -> x ∉ l.*1 -> heap w' !! x = heap w1 !! x) /\
    stderr w' = stderr w1 /\ frees w' = frees w1.
Proof.
  intros Hreg Hf Hnode Hn.
  destruct (mm_add_granted _ _ _ mem fuel _ _ Hreg Hf Hnode Hn)
    as (w' & Hrun & Hreg' & Hframe & _ & Hs' & Hf' & _).
  pose proof Hreg as (head & (Hm & _ & Hfa & _) & _).
  exists w'. split; [| done].
  destruct (Z.eqb_spec m NULL) as [Heq0 | _]; [done |].
  rewrite bind_assoc. step_load_fn. cbn [call_mm_add]. rewrite bind_assoc.
  rewrite (bind_done _ _ _ _ _ Hrun). reflexivity.
Qed.

(** A new block and its new node, appended to a registry in good order. *)
Lemma blocks_live_snoc h h1 h' m l p b n :
  registry h m l -> blocks_live h m l ->
  p <> NULL -> h !! p = None -> h1 = <[p := b]> h ->
  h1 !! n = None ->
  (forall x, x <> m -> x <> n -> x ∉ l.*1 -> h' !! x = h1 !! x) ->
  blocks_live h' m (l ++ [(n, p)]).
Proof.
  intros Hreg Hlive Hp Hfresh -> Hnfresh Hframe.
  destruct (blocks_live_fresh _ _ _ _ Hreg Hlive Hfresh) as (Hpm & Hp1 & Hp2).
  assert (n <> p) as Hnp.
  { intros ->. rewrite lookup_insert_eq in Hnfresh. done. }
  destruct Hlive as [Hnd Hl]. split.
  - rewrite fmap_app. apply NoDup_app. split; [done |]. split.
    + intros x Hx Hx'. simpl in Hx'. apply elem_of_cons in Hx' as [-> | Hx'];
        [done | apply elem_of_nil in Hx'; done].
    + simpl. apply NoDup_singleton.
  - assert (forall a, a ∈ l.*2 \/ a = p ->
              a <> NULL /\ is_Some (<[p := b]> h !! a) /\ a <> m /\ a ∉ l.*1)
      as Hall.
    { intros a [Ha | ->].
      - destruct (Hl a Ha) as (? & [c Hc] & ? & ?).
        repeat split; try done.
        rewrite lookup_insert_ne by (intros ->; congruence). eauto.
      - repeat split; try done. rewrite lookup_insert_eq. eauto. }
    intros a Ha. rewrite fmap_app in Ha. apply elem_of_app in Ha.
    assert (a ∈ l.*2 \/ a = p) as Ha'.
    { destruct Ha as [Ha | Ha]; [auto |]. simpl in Ha.
      apply elem_of_cons in Ha as [-> | Ha];
        [auto | apply elem_of_nil in Ha; done]. }
    destruct (Hall a Ha') as (Ha0 & [c Hc] & Ham & Han).
    assert (a <> n) as Haneq by (intros ->; congruence).
    repeat split; try done.
    + rewrite Hframe by done. eauto.
    + rewrite fmap_app. apply not_elem_of_app. split; [done |].
      simpl. apply not_elem_of_cons. split; [done | apply not_elem_of_nil].
Qed.

(** What [mm_malloc] and [mm_calloc] do after the allocation of the block,
    whatever the allocator answers for the node. *)
Lemma tracking_keeps_valid (fuel : nat) m l w w1 p b :
  valid w m l -> (length l <= fuel)%nat ->
  p <> NULL -> heap w !! p = None -> heap w1 = <[p := b]> (heap w) ->
  exists w' l',
    ((if m =? NULL then ret tt
      else f <- load_fn m f_mm_add ;; call_mm_add f fuel m p ;; ret tt) ;;
     ret p) w1 = Done p w' /\
    valid w' m l' /\ is_Some (heap w' !! p) /\
    (l' = l \/ exists n, l' = l ++ [(n, p)]) /\
    stderr w' = stderr w1 /\ frees w' = frees w1.
Proof.
  intros [Hreg Hlive] Hf Hp Hfresh Hh1.
  assert (registry (heap w1) m l) as Hreg1.
  { rewrite Hh1. apply registry_insert_fresh; done. }
  destruct (blocks_live_fresh _ _ _ _ Hreg Hlive Hfresh) as (Hpm & Hp1 & Hp2).
  destruct (malloc_total w1 sizeof_memory_address) as (n & w2 & Hnode).
  destruct (Z.eq_dec n NULL) as [-> | Hn].
  - destruct (malloc_null_inv _ _ _ Hnode) as (Hh2 & Hs2 & Hf2).
    exists w2, l. split; [eapply tracking_fails_silently; done |].
    unfold valid. rewrite Hh2, Hh1.
    split; [split |]; [| | split; [| split; [auto | done]]].
    + apply registry_insert_fresh; done.
    + apply blocks_live_insert_fresh; done.
    + rewrite lookup_insert_eq. eauto.
  - destruct (malloc_grant_inv _ _ _ _ Hnode Hn) as (Hnfresh & _).
    destruct (tracking_succeeds fuel m l p w1 n w2 Hreg1 Hf Hnode Hn)
      as (w' & Hrun & Hreg' & Hframe & Hs' & Hf').
    assert (n <> p) as Hnp.
    { intros ->. rewrite Hh1, lookup_insert_eq in Hnfresh. done. }
    exists w', (l ++ [(n, p)]).
    split; [exact Hrun |]. split; [split; [exact Hreg' |] |].
    + apply (blocks_live_snoc (heap w) (heap w1) (heap w') m l p b n); done.
    + split; [| split; [eauto | done]].
      rewrite Hframe by done. rewrite Hh1, lookup_insert_eq. eauto.
Qed.

(** [mm_malloc] on a registry in good order returns, whatever the allocator
    answers, and leaves the registry in good order. *)
Lemma mm_malloc_keeps_valid (fuel : nat) size m file func line l w :
  valid w m l -> (length l <= fuel)%nat ->
  exists p w' l',
    mm_malloc fuel size m file func line w = Done p w' /\
    valid w' m l' /\ (l' = l \/ exists n, l' = l ++ [(n, p)]).
Proof.
  intros Hv Hf.
  destruct (malloc_total w size) as (p & w1 & Hblk).
  unfold mm_malloc. rewrite (bind_done _ _ _ _ _ Hblk).
  destruct (Z.eqb_spec p NULL) as [-> | Hp].
  - destruct (malloc_null_inv _ _ _ Hblk) as (Hh & _).
    eexists NULL, _, l. split; [reflexivity |]. split; [| auto].
    unfold valid. wsimpl. rewrite Hh. done.
  - destruct (malloc_grant_inv _ _ _ _ Hblk Hp) as (Hfresh & Hh1 & _).
    destruct (tracking_keeps_valid fuel m l w w1 p _ Hv Hf Hp Hfresh Hh1)
      as (w' & l' & Hrun & Hv' & _ & Hl' & _).
    exists p, w', l'. done.
Qed.

Lemma mm_calloc_keeps_valid (fuel : nat) count size m file func line l w :
  valid w m l -> (length l <= fuel)%nat ->
  exists p w' l',
    mm_calloc fuel count size m file func line w = Done p w' /\
    valid w' m l' /\ (l' = l \/ exists n, l' = l ++ [(n, p)]).
Proof.
  intros Hv Hf.
  destruct (calloc_total w count size) as (p & w1 & Hblk).
  unfold mm_calloc. rewrite (bind_done _ _ _ _ _ Hblk).
  destruct (Z.eqb_spec p NULL) as [-> | Hp].
  - destruct (calloc_null_inv _ _ _ _ Hblk) as (Hh & _).
    eexists NULL, _, l. split; [reflexivity |]. split; [| auto].
    unfold valid. wsimpl. rewrite Hh. done.
  - destruct (calloc_grant_inv _ _ _ _ _ Hblk Hp) as (Hfresh & Hh1 & _).
    destruct (tracking_keeps_valid fuel m l w w1 p _ Hv Hf Hp Hfresh Hh1)
      as (w' & l' & Hrun & Hv' & _ & Hl' & _).
    exists p, w', l'. done.
Qed.

(** [mm_calloc] with a manager, when the block and its node are both
    allocated: the block of [count * size] bytes is returned, one record for
    it is appended, and the registry is still in good order. *)
Theorem mm_calloc_tracks_block
  (fuel : nat) (count size : Z) (m : ptr) (file func : string) (line : Z)
  (l : list record) (w : world) (p : ptr) (w1 : world) (n : ptr) (w2 : world) :
  valid w m l -> (length l <= fuel)%nat ->
  calloc count size w = Done p w1 -> p <> NULL ->
  malloc sizeof_memory_address w1 = Done n w2 -> n <> NULL ->
  exists w',
    mm_calloc fuel count size m file func line w = Done p w' /\
    valid w' m (l ++ [(n, p)]) /\
    (exists fields, heap w' !! p = Some (Block (count * size) fields)) /\
    count * size <= SIZE_MAX /\
    stderr w' = stderr w /\ frees w' = frees w.
Proof.
  intros [Hreg Hlive] Hf Hblk Hp Hnode Hn.
  destruct (calloc_grant_inv _ _ _ _ _ Hblk Hp) as (Hfresh & Hh1 & Hs1 & Hf1 & _).
  destruct (malloc_grant_inv _ _ _ _ Hnode Hn) as (Hnfresh & _).
  destruct (blocks_live_fresh _ _ _ _ Hreg Hlive Hfresh) as (Hpm & Hp1 & Hp2).
  assert (registry (heap w1) m l) as Hreg1.
  { rewrite Hh1. apply registry_insert_fresh; done. }
  assert (n <> p) as Hnp.
  { intros ->. rewrite Hh1, lookup_insert_eq in Hnfresh. done. }
  destruct (tracking_succeeds fuel m l p w1 n w2 Hreg1 Hf Hnode Hn)
    as (w' & Hrun & Hreg' & Hframe & Hs' & Hf').
  exists w'. split; [| split; [split; [exact Hreg' |] |]].
  - unfold mm_calloc. rewrite (bind_done _ _ _ _ _ Hblk).
    destruct (Z.eqb_spec p NULL) as [Heq0 | _]; [done |]. exact Hrun.
  - apply (blocks_live_snoc (heap w) (heap w1) (heap w') m l p
                            (Block (count * size) ∅) n); done.
  - split; [| split; [| split; congruence]].
    + exists ∅. rewrite Hframe by done. rewrite Hh1. apply lookup_insert_eq.
    + unfold calloc in Hblk.
      destruct (Z.ltb_spec SIZE_MAX (count * size)) as [Hbig | Hok]; [| lia].
      unfold refuse in Hblk. injection Hblk as <- _. done.
Qed.

(** [mm_free] of a tracked block on a registry in good order. *)
Lemma mm_free_keeps_valid (fuel : nat) m mem l w :
  valid w m l -> (length l < fuel)%nat -> mem ∈ l.*2 ->
  exists w',
    mm_free fuel m mem w = Done 0 w' /\
    valid w' m (remove_first mem l) /\
    (mem ∉ (remove_first mem l).*2) /\
    heap w' !! mem = None /\ heap w' !! first_match mem l = None /\
    (forall x, x <> m -> x <> mem -> x ∉ l.*1 -> heap w' !! x = heap w !! x) /\
    stderr w' = stderr w.
Proof.
  intros [Hreg [Hnd Hlive]] Hf Hin.
  destruct (Hlive mem Hin) as (Hmem & Hl & Hmm & Hmn).
  destruct (first_match_split _ _ Hin)
    as (l1 & q & l2 & -> & Hn1 & Hfm & _ & Hrm & _).
  destruct (mm_free_present _ _ _ _ _ _ _ Hreg Hf Hn1 Hmem Hl Hmm Hmn)
    as (w' & Hrun & Hreg' & Hdm & Hdq & Hframe & _ & _ & _ & Hst).
  rewrite Hrm, Hfm.
  rewrite fmap_app, fmap_cons in Hnd. simpl in Hnd.
  apply NoDup_app in Hnd as (Hnd1 & Hdis & Hnd2).
  apply NoDup_cons in Hnd2 as [Hm2 Hnd2].
  assert (mem ∉ (l1 ++ l2).*2) as Hgone.
  { rewrite fmap_app. apply not_elem_of_app. done. }
  exists w'. split; [done |]. split; [split; [done |] |]; [| done].
  split.
  - rewrite fmap_app. apply NoDup_app. split; [done |]. split; [| done].
    intros x Hx Hx'. apply (Hdis x Hx). apply elem_of_cons. auto.
  - intros a Ha.
    assert (a ∈ (l1 ++ (q, mem) :: l2).*2) as Ha'.
    { rewrite fmap_app in Ha. rewrite fmap_app, fmap_cons.
      rewrite elem_of_app in Ha. rewrite elem_of_app, elem_of_cons. tauto. }
    destruct (Hlive a Ha') as (Ha0 & Hal & Ham & Han).
    assert (a <> mem) as Hne by (intros ->; done).
    repeat split; try done.
    + rewrite Hframe by done. done.
    + rewrite fmap_app in Han |- *. rewrite fmap_cons in Han.
      rewrite not_elem_of_app in Han. rewrite not_elem_of_app.
      rewrite not_elem_of_cons in Han. tauto.
Qed.

(** [mm_free] on a registry in good order, for any address. *)
Lemma mm_free_any_keeps_valid (fuel : nat) m mem l w :
  valid w m l -> (length l < fuel)%nat ->
  exists r w',
    mm_free fuel m mem w = Done r w' /\
    valid w' m (remove_first mem l) /\
    (r = 0 <-> mem ∈ l.*2) /\ (r = -1 <-> mem ∉ l.*2).
Proof.
  intros Hv Hf. destruct (decide (mem ∈ l.*2)) as [Hin | Hn].
  - destruct (mm_free_keeps_valid fuel m mem l w Hv Hf Hin)
      as (w' & Hrun & Hv' & _).
    exists 0, w'. split; [done |]. split; [done |].
    split; split; intros; done || lia.
  - destruct Hv as [Hreg Hlive].
    exists (-1), w. rewrite remove_first_absent by done.
    split; [apply (mm_free_absent _ _ l); done |]. split; [done |].
    split; split; intros; done || lia.
Qed.

(** A tracked block released through [mm_free]: the registry is in good
    order without its record, the block and the node are released, no
    other block is touched, and [mm_find_in_list] finds no record for the
    address any more. *)
Theorem mm_free_keeps_registry_valid
  (fuel : nat) (m mem : ptr) (l : list record) (w : world) :
  valid w m l -> (length l < fuel)%nat -> mem ∈ l.*2 ->
  exists w',
    mm_free fuel m mem w = Done 0 w' /\
    valid w' m (remove_first mem l) /\
    heap w' !! mem = None /\ heap w' !! first_match mem l = None /\
    (forall x, x <> m -> x <> mem -> x ∉ l.*1 -> heap w' !! x = heap w !! x) /\
    stderr w' = stderr w /\
    mm_find_in_list fuel m mem w' = Done NULL w'.
Proof.
  intros Hv Hf Hin.
  destruct (mm_free_keeps_valid fuel m mem l w Hv Hf Hin)
    as (w' & Hrun & Hv' & Hgone & Hdm & Hdn & Hframe & Hst).
  exists w'. repeat (split; [done |]).
  destruct Hv' as [Hreg' _].
  rewrite (mm_find_in_list_done w' m _ mem fuel Hreg').
  - rewrite first_match_absent by done. done.
  - pose proof (remove_first_length mem l). lia.
Qed.

(** [mm_free] of an address that a record holds and that is not allocated:
    the record is unlinked and [free] is called on the address. *)
Lemma mm_free_dead_block (fuel : nat) m mem l w :
  registry (heap w) m l -> (length l < fuel)%nat ->
  mem ∈ l.*2 -> mem <> NULL -> heap w !! mem = None ->
  mm_free fuel m mem w = Undefined.
Proof.
  intros Hreg Hf Hin Hmem Hdead.
  destruct (first_match_split _ _ Hin)
    as (l1 & q & l2 & -> & Hn1 & _).
  pose proof Hreg as (head & Hman & Hs & Hnm).
  pose proof (lseg_NoDup _ _ _ Hs) as Hnd.
  pose proof Hman as (Hm & Hh & _).
  pose proof Hs as Hs0. unfold lseg in Hs.
  apply seg_app in Hs as (mid & Hs1 & Hs2).
  simpl in Hs2. destruct Hs2 as (-> & Hq & Ha & n & Hnx & Hs2).
  rewrite fmap_app, fmap_cons in Hnd, Hnm. simpl in Hnd, Hnm.
  apply NoDup_app in Hnd as (Hnd1 & Hdis & Hnd2).
  apply not_elem_of_app in Hnm as [Hnm1 Hnm2].
  apply not_elem_of_cons in Hnm2 as [Hmq Hnm2].
  assert (q ∉ l1.*1) as Hq1.
  { intros Hx. apply (Hdis q Hx). apply elem_of_cons. auto. }
  assert (is_Some (heap w !! q)) as Hlq by (eapply field_at_live; done).
  assert (is_Some (heap w !! m)) as Hlm by (eapply field_at_live; done).
  assert (mem <> m) as Hmm by (intros ->; destruct Hlm; congruence).
  assert (mem <> q) as Hmq' by (intros ->; destruct Hlq; congruence).
  unfold mm_free. step_load.
  erewrite bind_done; [| apply mm_free_loop_done; done].
  rewrite first_match_app, prev_match_app by done.
  destruct (Z.eqb_spec q NULL) as [Heq0 | _]; [done |].
  step_load.
  destruct (decide (l1 = [])) as [-> | Hne1].
  - simpl in Hs1. subst head. rewrite Z.eqb_refl.
    rewrite bind_assoc. step_load. step_store.
    erewrite bind_done; cycle 1.
    { apply load_ptr_done. wsimpl. rewrite field_at_store_ne by done.
      exact Ha. }
    rewrite bind_undefined; [done |].
    apply free_dead; wsimpl; [done |].
    rewrite heap_store_lookup_ne by done. done.
  - pose proof (seg_head_in _ _ _ _ Hs1 Hne1) as Hhead.
    destruct (seg_last_node _ _ _ _ Hs1 Hne1) as [Htin Htnext].
    set (t := last_node l1 NULL) in *.
    destruct (Z.eqb_spec q head) as [-> | _]; [done |].
    assert (is_Some (heap w !! t)) as Hlt by (eapply field_at_live; done).
    assert (t <> q) as Htq by (intros ->; done).
    assert (t <> mem) as Htmem by (intros ->; destruct Hlt; congruence).
    rewrite bind_assoc. step_load. step_store.
    erewrite bind_done; cycle 1.
    { apply load_ptr_done. wsimpl. rewrite field_at_store_ne by done.
      exact Ha. }
    rewrite bind_undefined; [done |].
    apply free_dead; wsimpl; [done |].
    rewrite heap_store_lookup_ne by done. done.
Qed.

(** [mm_realloc] of a tracked block on a registry in good order, whatever
    the allocator answers. *)
Lemma mm_realloc_keeps_valid (fuel : nat) p size m file func line l w :
  valid w m l -> (length l < fuel)%nat -> p ∈ l.*2 ->
  exists q w',
    mm_realloc fuel p size m file func line w = Done q w' /\
    (q = NULL ->
       registry (heap w') m l /\ frees w' = frees w /\
       (heap w' = heap w \/ size = 0 /\ heap w' = delete p (heap w))) /\
    (q <> NULL ->
       valid w' m (retarget p q l) /\ is_Some (heap w' !! q) /\
       (q <> p -> heap w' !! p = None)).
Proof.
  intros [Hreg [Hnd Hlive]] Hf Hin.
  destruct (Hlive p Hin) as (Hp0 & Hpl & Hpm & Hpn).
  destruct (realloc_total w p size) as (q & w1 & Hre); [auto |].
  exists q. destruct (Z.eq_dec q NULL) as [-> | Hq].
  - destruct (realloc_inv _ _ _ _ _ Hre)
      as [(_ & Hh & _ & Hfr) | [? _]]; [| done].
    eexists. split; [| split; [| done]].
    + unfold mm_realloc. rewrite (bind_done _ _ _ _ _ Hre). reflexivity.
    + intros _. wsimpl. split; [| split; [done |]].
      * destruct Hh as [-> | (_ & _ & ->)]; [done |].
        eapply registry_frame; [done |]. intros x Hx.
        apply lookup_delete_ne. destruct Hx as [-> | Hx]; [done |].
        intros ->. done.
      * destruct Hh as [Hh | (? & _ & Hh)]; auto.
  - destruct (realloc_inv _ _ _ _ _ Hre)
      as [[? _] | (_ & Hfresh & Hlq & Hsame & _)]; [done |].
    destruct (mm_realloc_granted fuel p size m file func line l w q w1)
      as (Hreg1 & Hrun & _); try done.
    destruct (decide (p ∈ l.*2)) as [_ | ?]; [| done].
    eexists. split; [exact Hrun |]. split; [done |]. intros _. wsimpl.
    set (h' := heap_store (heap w1) (first_match p l) f_addr (VPtr q)).
    pose proof Hreg as (head & _ & Hs & _).
    destruct (first_match_found _ _ _ _ Hs Hin) as [Hfm0 Hfmin].
    assert (first_match p l <> p) as Hfmp by (intros Heq; rewrite Heq in Hfmin; done).
    assert (forall x, x ∈ l.*2 -> x <> p -> x <> q) as Hother.
    { intros x Hx Hxp ->. destruct Hfresh as [? | Hdead]; [done |].
      destruct (Hlive q Hx) as (_ & [? ?] & _). congruence. }
    assert (q <> m /\ q ∉ l.*1) as [Hqm Hqn].
    { destruct Hfresh as [-> | Hdead]; [done |]. split.
      - intros ->. destruct (registry_live _ _ _ m Hreg) as [_ [? ?]];
          [auto | congruence].
      - intros Hx. destruct (registry_live _ _ _ q Hreg) as [_ [? ?]];
          [auto | congruence]. }
    split; [split |]; [| | split].
    + apply registry_retarget; done.
    + destruct (first_match_split _ _ Hin)
        as (l1 & node & l2 & Hl & Hn1 & _ & _ & _ & Hrt).
      unfold blocks_live. rewrite retarget_nodes, Hrt.
      rewrite Hl, fmap_app, fmap_cons in Hnd. simpl in Hnd.
      apply NoDup_app in Hnd as (Hnd1 & Hdis & Hnd2).
      apply NoDup_cons in Hnd2 as [Hp2 Hnd2].
      assert (forall x, x ∈ l1.*2 \/ x ∈ l2.*2 -> x ∈ l.*2 /\ x <> p) as Hsub.
      { intros x Hx. split.
        - rewrite Hl, fmap_app, fmap_cons, elem_of_app, elem_of_cons. tauto.
        - intros ->. destruct Hx as [Hx | Hx]; [| done].
          apply (Hdis p Hx). apply elem_of_cons. auto. }
      split.
      * rewrite fmap_app, fmap_cons. simpl. apply NoDup_app.
        split; [done |]. split.
        -- intros x Hx Hx'. apply elem_of_cons in Hx' as [-> | Hx'].
           ++ destruct (Hsub q) as [Hq1 Hq2]; [auto |].
              apply (Hother q); done.
           ++ apply (Hdis x Hx). apply elem_of_cons. auto.
        -- apply NoDup_cons. split; [| done]. intros Hx.
           destruct (Hsub q) as [Hq1 Hq2]; [auto |]. apply (Hother q); done.
      * intros a Ha. rewrite fmap_app, fmap_cons, elem_of_app, elem_of_cons in Ha.
        simpl in Ha.
        destruct (decide (a = q)) as [-> | Haq].
        -- repeat split; try done. apply heap_store_live. done.
        -- assert (a ∈ l.*2 /\ a <> p) as [Hal Hap] by (apply Hsub; tauto).
           destruct (Hlive a Hal) as (? & ? & ? & ?).
           repeat split; try done.
           apply heap_store_live. rewrite Hsame by done. done.
    + apply heap_store_live. done.
    + intros Hqp. unfold h'. rewrite heap_store_lookup_ne by done.
      eapply realloc_moved_inv; done.
Qed.

(** [mm_realloc] of a tracked block on a registry in good order returns,
    whatever the allocator answers.

    On [NULL] nothing is freed by the call and the registry holds the
    records it held.  For a size that is not 0 every allocation is as it
    was and the registry is in good order.  Where [realloc] released the
    block, which it may do for the size 0 only, the record of the block is
    still there, and [mm_free] of the block through the registry then calls
    [free] on the released address.

    On another answer the registry is in good order with the new address in
    place of the old one, the new address is allocated and
    [mm_find_in_list] finds its record; when the block moved, the old
    address is not allocated and no record holds it. *)
Theorem mm_realloc_keeps_registry_valid
  (fuel : nat) (p : ptr) (size : Z) (m : ptr) (file func : string) (line : Z)
  (l : list record) (w : world) :
  valid w m l -> (length l < fuel)%nat -> p ∈ l.*2 ->
  exists q w',
    mm_realloc fuel p size m file func line w = Done q w' /\
    (q = NULL ->
       registry (heap w') m l /\ frees w' = frees w /\
       (size <> 0 -> valid w' m l /\ heap w' = heap w) /\
       (heap w' !! p = None ->
          size = 0 /\ mm_free fuel m p w' = Undefined)) /\
    (q <> NULL ->
       valid w' m (retarget p q l) /\ is_Some (heap w' !! q) /\
       mm_find_in_list fuel m q w' = Done (first_match p l) w' /\
       first_match p l <> NULL /\
       (q <> p ->
          heap w' !! p = None /\
          mm_find_in_list fuel m p w' = Done NULL w')).
Proof.
  intros Hv Hf Hin.
  destruct (mm_realloc_keeps_valid fuel p size m file func line l w Hv Hf Hin)
    as (q & w' & Hrun & Hnull & Hok).
  exists q, w'. split; [done |]. split.
  - intros Hq. destruct (Hnull Hq) as (Hreg' & Hfr & Hh).
    destruct Hv as [Hreg [Hnd Hlive]].
    destruct (Hlive p Hin) as (Hp0 & Hpl & _).
    split; [done |]. split; [done |]. split.
    + intros Hsz. destruct Hh as [Hh | [? _]]; [| done].
      split; [| done]. unfold valid. rewrite Hh. done.
    + intros Hdead. split.
      * destruct Hh as [Hh | [? _]]; [| done].
        rewrite Hh in Hdead. destruct Hpl. congruence.
      * apply (mm_free_dead_block fuel m p l w'); done.
  - intros Hq.
    destruct (Hok Hq) as (Hv' & Hlq & Hmoved).
    destruct Hv as [Hreg [Hnd _]]. pose proof Hv' as [Hreg' [Hnd' _]].
    pose proof Hreg as (head & _ & Hs & _).
    destruct (first_match_found _ _ _ _ Hs Hin) as [Hfm0 _].
    assert (length (retarget p q l) < fuel)%nat as Hf'
      by (rewrite retarget_length; done).
    split; [done |]. split; [done |]. split; [| split; [done |]].
    + rewrite (mm_find_in_list_done w' m _ q fuel Hreg' Hf'). f_equal.
      apply first_match_retarget; done.
    + intros Hqp. split; [auto |].
      rewrite (mm_find_in_list_done w' m _ p fuel Hreg' Hf').
      rewrite first_match_absent; [done |].
      rewrite retarget_keeps_old by done. apply remove_first_gone; done.
Qed.

(** ** Destroying the tracker *)

Lemma free_mem_manager_done (fuel : nat) m l w :
  valid w m l -> (length l < fuel)%nat -> Z.of_nat (length l) <= INT_MAX ->
  free_mem_manager fuel m w
  = Done 0 (set_heap (delete m (release_all (heap w) l))
                     (set_frees (frees w ++ release_order l ++ [m]) w)).
Proof.
  intros [Hreg Hlive] Hf Hmax.
  pose proof (mm_free_all_done _ _ _ _ Hreg Hlive Hf Hmax) as Hrun.
  pose proof (blocks_live_not_manager _ _ _ Hlive) as Hma.
  destruct Hreg as (head & (Hm & Hh & _ & _ & Hfa) & Hs & Hnm).
  unfold free_mem_manager.
  destruct (Z.eqb_spec m NULL) as [Heq0 | _]; [done |].
  step_load_fn. cbn [call_mm_free_all].
  rewrite (bind_done _ _ _ _ _ Hrun).
  erewrite bind_done; cycle 1.
  { apply free_done; wsimpl; [done |].
    rewrite release_all_lookup_ne by done. eapply field_at_live. exact Hh. }
  unfold ret. wsimpl. rewrite <- app_assoc. reflexivity.
Qed.

(** [free_mem_manager] on a registry in good order returns 0 and calls
    [free] once on the manager, once on every node and once on every tracked
    block, and on nothing else: every one of them was allocated and is
    released, and every other allocation is as it was. *)
Theorem free_mem_manager_frees_each_once
  (fuel : nat) (m : ptr) (l : list record) (w : world) :
  valid w m l -> (length l < fuel)%nat -> Z.of_nat (length l) <= INT_MAX ->
  exists w' released,
    free_mem_manager fuel m w = Done 0 w' /\
    frees w' = frees w ++ released /\
    NoDup released /\
    (forall x, x ∈ released <-> x = m \/ x ∈ l.*1 \/ x ∈ l.*2) /\
    (forall x, x ∈ released -> is_Some (heap w !! x) /\ heap w' !! x = None) /\
    (forall x, x ∉ released -> heap w' !! x = heap w !! x).
Proof.
  intros Hv Hf Hmax.
  pose proof (free_mem_manager_done fuel m l w Hv Hf Hmax) as Hrun.
  destruct Hv as [Hreg [Hnd Hlive]].
  assert (m ∉ l.*2) as Hma.
  { intros Hin. destruct (Hlive m Hin) as (_ & _ & ? & _). done. }
  pose proof Hreg as (head & _ & Hs & Hnm).
  pose proof (lseg_NoDup _ _ _ Hs) as Hndn.
  assert (forall x, x ∈ release_order l ++ [m]
                    <-> x = m \/ x ∈ l.*1 \/ x ∈ l.*2) as Hmem.
  { intros x. rewrite elem_of_app, elem_of_release_order, elem_of_cons,
      elem_of_nil. tauto. }
  eexists _, (release_order l ++ [m]). split; [exact Hrun |]. wsimpl.
  split; [done |]. split; [| split; [exact Hmem | split]].
  - apply NoDup_app. split; [| split; [| apply NoDup_singleton]].
    + apply NoDup_release_order; try done.
      intros a Ha. destruct (Hlive a Ha) as (_ & _ & _ & ?). done.
    + intros x Hx Hx'. apply elem_of_release_order in Hx.
      apply elem_of_cons in Hx' as [-> | Hx']; [tauto |].
      apply elem_of_nil in Hx'. done.
  - intros x Hx. apply Hmem in Hx. split.
    + destruct Hx as [-> | [Hx | Hx]].
      * eapply registry_live; [done | auto].
      * eapply registry_live; [done | auto].
      * destruct (Hlive x Hx) as (_ & ? & _). done.
    + destruct (decide (x = m)) as [-> | Hxm]; [apply lookup_delete_eq |].
      rewrite lookup_delete_ne by done. apply release_all_dead. tauto.
  - intros x Hx. rewrite Hmem in Hx.
    rewrite lookup_delete_ne by (intros ->; tauto).
    apply release_all_lookup_ne; tauto.
Qed.

(** ** Allocating and releasing *)

Lemma remove_first_snoc_new mem l p :
  mem ∉ l.*2 -> remove_first mem (l ++ [(p, mem)]) = l.
Proof.
  intros Hn. rewrite (remove_first_app mem l p []) by done.
  apply app_nil_r.
Qed.

(** A block allocated through [mm_malloc] and released through [mm_free]:
    both calls succeed, the registry holds the records it held before the
    two calls, in good order, and every allocation other than the manager
    and the nodes is as it was before them. *)
Theorem mm_malloc_then_mm_free_round_trip
  (fuel : nat) (size : Z) (m : ptr) (file func : string) (line : Z)
  (l : list record) (w : world) (p : ptr) (w1 : world) (n : ptr) (w2 : world) :
  valid w m l -> (length l + 1 < fuel)%nat ->
  malloc size w = Done p w1 -> p <> NULL ->
  malloc sizeof_memory_address w1 = Done n w2 -> n <> NULL ->
  exists w' w'',
    mm_malloc fuel size m file func line w = Done p w' /\
    mm_free fuel m p w' = Done 0 w'' /\
    valid w'' m l /\
    (forall x, x <> m -> x ∉ l.*1 -> heap w'' !! x = heap w !! x) /\
    stderr w'' = stderr w.
Proof.
  intros [Hreg Hlive] Hf Hblk Hp Hnode Hn.
  destruct (malloc_grant_inv _ _ _ _ Hblk Hp) as (Hfresh & Hh1 & Hs1 & _).
  destruct (malloc_grant_inv _ _ _ _ Hnode Hn) as (Hnfresh & _).
  destruct (blocks_live_fresh _ _ _ _ Hreg Hlive Hfresh) as (Hpm & Hp1 & Hp2).
  assert (registry (heap w1) m l) as Hreg1.
  { rewrite Hh1. apply registry_insert_fresh; done. }
  assert (n <> p) as Hnp.
  { intros ->. rewrite Hh1, lookup_insert_eq in Hnfresh. done. }
  destruct (tracking_succeeds fuel m l p w1 n w2 Hreg1 ltac:(lia) Hnode Hn)
    as (w' & Hrun & Hreg' & Hframe & Hs' & _).
  assert (valid w' m (l ++ [(n, p)])) as Hv'.
  { split; [done |].
    apply (blocks_live_snoc (heap w) (heap w1) (heap w') m l p
                            (Block size ∅) n); done. }
  destruct (mm_free_keeps_valid fuel m p (l ++ [(n, p)]) w')
    as (w'' & Hfree & Hv'' & _ & Hdp & Hdn & Hframe' & Hs'').
  { done. }
  { rewrite length_app. simpl. lia. }
  { rewrite fmap_app. apply elem_of_app. right. apply elem_of_cons. auto. }
  rewrite remove_first_snoc_new in Hv'' by done.
  rewrite first_match_snoc_new in Hdn by done.
  exists w', w''. split; [| split; [done | split; [done | split]]].
  - unfold mm_malloc. rewrite (bind_done _ _ _ _ _ Hblk).
    destruct (Z.eqb_spec p NULL) as [Heq0 | _]; [done |]. exact Hrun.
  - intros x Hxm Hxl.
    destruct (decide (x = p)) as [-> | Hxp]; [congruence |].
    destruct (decide (x = n)) as [-> | Hxn].
    + rewrite Hdn. rewrite Hh1, lookup_insert_ne in Hnfresh by done. done.
    + rewrite Hframe'; [| done | done |].
      * rewrite Hframe by done. rewrite Hh1. apply lookup_insert_ne. done.
      * rewrite fmap_app. apply not_elem_of_app. split; [done |].
        simpl. apply not_elem_of_cons. split; [done | apply not_elem_of_nil].
  - congruence.
Qed.

(** ** Records whose block is gone *)

(** [mm_realloc] without a manager, on a block that a registry tracks: when
    the block moves, the registry is not told.  Its records are as they
    were, one of them holds the old address, which is not allocated any
    more, and [mm_free] of that address through the registry then calls
    [free] on it a second time. *)
Theorem untracked_realloc_leaves_stale_record
  (fuel : nat) (p : ptr) (size : Z) (m : ptr) (file func : string) (line : Z)
  (l : list record) (w : world) (q : ptr) (w1 : world) :
  valid w m l -> (length l < fuel)%nat -> p ∈ l.*2 ->
  realloc p size w = Done q w1 -> q <> NULL -> q <> p ->
  mm_realloc fuel p size NULL file func line w = Done q w1 /\
  registry (heap w1) m l /\
  heap w1 !! p = None /\
  mm_free fuel m p w1 = Undefined.
Proof.
  intros [Hreg [Hnd Hlive]] Hf Hin Hre Hq Hqp.
  destruct (Hlive p Hin) as (Hp0 & Hpl & Hpm & Hpn).
  destruct (mm_realloc_granted fuel p size m file func line l w q w1)
    as (Hreg1 & _ & _); try done.
  pose proof (realloc_moved_inv _ _ _ _ _ Hre Hp0 Hq Hqp) as Hdead.
  split; [| split; [done | split; [done |]]].
  - unfold mm_realloc. rewrite (bind_done _ _ _ _ _ Hre).
    destruct (Z.eqb_spec q NULL) as [Heq0 | _]; [done |]. reflexivity.
  - apply (mm_free_dead_block fuel m p l w1); done.
Qed.

(** ** Any client of the tracker *)

Lemma client_step_keeps_valid m w w' l :
  valid w m l -> client_step m w w' -> exists l', valid w' m l'.
Proof.
  intros Hv Hstep. pose proof Hv as [Hreg _].
  destruct Hstep as [fuel size file func line p l0 Hreg0 Hf Hrun
                    |fuel count size file func line p l0 Hreg0 Hf Hrun
                    |fuel p size file func line q l0 Hreg0 Hf Hin Hsz Hrun
                    |fuel mem r l0 Hreg0 Hf Hrun];
    pose proof (registry_functional _ _ _ _ Hreg0 Hreg) as ->.
  - destruct (mm_malloc_keeps_valid fuel size m file func line l w Hv Hf)
      as (p' & w'' & l' & Hrun' & Hv' & _).
    rewrite Hrun' in Hrun. injection Hrun as <- <-. eauto.
  - destruct (mm_calloc_keeps_valid fuel count size m file func line l w Hv Hf)
      as (p' & w'' & l' & Hrun' & Hv' & _).
    rewrite Hrun' in Hrun. injection Hrun as <- <-. eauto.
  - destruct (mm_realloc_keeps_valid fuel p size m file func line l w Hv Hf Hin)
      as (q' & w'' & Hrun' & Hnull & Hok).
    rewrite Hrun' in Hrun. injection Hrun as <- <-.
    destruct (Z.eq_dec q' NULL) as [Hq | Hq].
    + destruct (Hnull Hq) as (_ & _ & [Hh | [? _]]); [| done].
      exists l. unfold valid. rewrite Hh. done.
    + destruct (Hok Hq) as (? & _). eauto.
  - destruct (mm_free_any_keeps_valid fuel m mem l w Hv Hf)
      as (r' & w'' & Hrun' & Hv' & _).
    rewrite Hrun' in Hrun. injection Hrun as <- <-. eauto.
Qed.

(** From a registry in good order, after any number of calls of a client
    that goes through the manager only and resizes no block to the size 0,
    the registry is in good order; and
    [free_mem_manager] then returns 0, releasing the manager, the nodes and
    the tracked blocks once each. *)
Theorem client_steps_keep_registry_valid
  (m : ptr) (l : list record) (w w' : world) :
  valid w m l -> rtc (client_step m) w w' ->
  exists l',
    valid w' m l' /\
    (Z.of_nat (length l') <= INT_MAX ->
     exists w'' released,
       free_mem_manager (S (length l')) m w' = Done 0 w'' /\
       frees w'' = frees w' ++ released /\ NoDup released /\
       heap w'' !! m = None).
Proof.
  intros Hv Hsteps. revert l Hv.
  induction Hsteps as [w | w w1 w' Hstep _ IH]; intros l Hv.
  - exists l. split; [done |]. intros Hmax.
    pose proof (free_mem_manager_done (S (length l)) m l w Hv ltac:(lia) Hmax)
      as Hrun.
    destruct Hv as [Hreg [Hnd Hlive]].
    pose proof Hreg as (head & _ & Hs & Hnm).
    eexists _, (release_order l ++ [m]). split; [exact Hrun |]. wsimpl.
    split; [done |]. split; [| apply lookup_delete_eq].
    apply NoDup_app. split; [| split; [| apply NoDup_singleton]].
    + apply NoDup_release_order; try done.
      * eapply lseg_NoDup. done.
      * intros a Ha. destruct (Hlive a Ha) as (_ & _ & _ & ?). done.
    + intros x Hx Hx'. apply elem_of_release_order in Hx.
      apply elem_of_cons in Hx' as [-> | Hx'];
        [| apply elem_of_nil in Hx'; done].
      destruct Hx as [Hx | Hx]; [done |].
      destruct (Hlive m Hx) as (_ & _ & ? & _). done.
  - destruct (client_step_keeps_valid m w w1 l Hv Hstep) as (l1 & Hv1).
    apply (IH l1 Hv1).
Qed.

(** ** Creating and destroying *)

Lemma init_mem_manager_done w p w1 :
  malloc sizeof_memory_manager w = Done p w1 -> p <> NULL ->
  exists w',
    init_mem_manager w = Done p w' /\
    valid w' p [] /\
    heap w !! p = None /\
    (forall x, x <> p -> heap w' !! x = heap w !! x) /\
    frees w' = frees w /\ stderr w' = stderr w.
Proof.
  intros Hmal Hp.
  destruct (malloc_grant_inv _ _ _ _ Hmal Hp) as (Hfresh & Hh & _).
  destruct (malloc_inv _ _ _ _ Hmal) as [(_ & _ & ->) | [? _]]; [| done].
  set (h0 := <[p := Block sizeof_memory_manager ∅]> (heap w)).
  assert (is_Some (h0 !! p)) as H0
    by (unfold h0; rewrite lookup_insert_eq; eauto).
  set (h1 := heap_store h0 p f_head (VPtr NULL)).
  assert (is_Some (h1 !! p)) as H1 by (apply heap_store_live; done).
  set (h2 := heap_store h1 p f_mm_add (VFn Fn_mm_add)).
  assert (is_Some (h2 !! p)) as H2 by (apply heap_store_live; done).
  set (h3 := heap_store h2 p f_mm_free (VFn Fn_mm_free)).
  assert (is_Some (h3 !! p)) as H3 by (apply heap_store_live; done).
  unfold init_mem_manager. rewrite (bind_done _ _ _ _ _ Hmal).
  destruct (Z.eqb_spec p NULL) as [Heq0 | _]; [done |].
  do 4 step_store.
  eexists. split; [reflexivity |]. unfold valid. wsimpl.
  fold h0; fold h1; fold h2; fold h3.
  split; [split |]; [| | split; [done | split; [| done]]].
  - exists NULL. split; [| split].
    + unfold h3, h2, h1. apply manager_at_init; done.
    + reflexivity.
    + apply not_elem_of_nil.
  - split; [constructor |]. intros a Ha. apply elem_of_nil in Ha. done.
  - intros x Hx. unfold h3, h2, h1, h0.
    rewrite !heap_store_lookup_ne by done. apply lookup_insert_ne. done.
Qed.

(** A tracker created and destroyed at once: both calls succeed, [free] is
    called on the manager only, and the allocations are exactly what they
    were before [init_mem_manager]. *)
Theorem init_then_destroy_restores_heap
  (fuel : nat) (w : world) (m : ptr) (w1 : world) :
  malloc sizeof_memory_manager w = Done m w1 -> m <> NULL -> (0 < fuel)%nat ->
  exists w' w'',
    init_mem_manager w = Done m w' /\
    free_mem_manager fuel m w' = Done 0 w'' /\
    heap w'' = heap w /\
    frees w'' = frees w ++ [m] /\ stderr w'' = stderr w.
Proof.
  intros Hmal Hm Hf.
  destruct (init_mem_manager_done _ _ _ Hmal Hm)
    as (w' & Hinit & Hv & Hfresh & Hframe & Hfr & Hst).
  pose proof (free_mem_manager_done fuel m [] w' Hv) as Hrun.
  exists w'. eexists. split; [done |]. split.
  - apply Hrun; [simpl; lia | unfold INT_MAX; simpl; lia].
  - wsimpl. cbn [release_all release_order]. split; [| split].
    + apply map_eq. intros x. destruct (decide (x = m)) as [-> | Hx].
      * rewrite lookup_delete_eq. done.
      * rewrite lookup_delete_ne by done. auto.
    + rewrite Hfr. done.
    + done.
Qed.

(** [mm_realloc] of [NULL] with a manager: the new block is returned and no
    record is made for it, so that [free_mem_manager] leaves it
    allocated. *)
Theorem mm_realloc_of_null_is_untracked
  (fuel : nat) (size : Z) (m : ptr) (file func : string) (line : Z)
  (l : list record) (w : world) (q : ptr) (w1 : world) :
  valid w m l -> (length l < fuel)%nat -> Z.of_nat (length l) <= INT_MAX ->
  realloc NULL size w = Done q w1 -> q <> NULL ->
  mm_realloc fuel NULL size m file func line w = Done q w1 /\
  valid w1 m l /\ (q ∉ l.*2) /\ is_Some (heap w1 !! q) /\
  exists w2,
    free_mem_manager fuel m w1 = Done 0 w2 /\ is_Some (heap w2 !! q).
Proof.
  intros [Hreg Hlive] Hf Hmax Hre Hq.
  assert (malloc size w = Done q w1) as Hmal by exact Hre.
  destruct (malloc_grant_inv _ _ _ _ Hmal Hq) as (Hfresh & Hh1 & _).
  destruct (blocks_live_fresh _ _ _ _ Hreg Hlive Hfresh) as (Hqm & Hq1 & Hq2).
  assert (NULL ∉ l.*2) as Hnull.
  { intros Hin. destruct Hlive as [_ Hl]. destruct (Hl NULL Hin). done. }
  assert (NULL <> m /\ NULL ∉ l.*1) as [Hnm Hnn].
  { split.
    - intros <-. destruct (registry_live _ _ _ NULL Hreg); [auto | done].
    - intros Hin. destruct (registry_live _ _ _ NULL Hreg); [auto | done]. }
  destruct (mm_realloc_granted fuel NULL size m file func line l w q w1)
    as (Hreg1 & Hrun & _); try done.
  destruct (decide (NULL ∈ l.*2)) as [? | _]; [done |].
  assert (valid w1 m l) as Hv1.
  { split; [done |]. rewrite Hh1. apply blocks_live_insert_fresh; done. }
  assert (is_Some (heap w1 !! q)) as Hlq.
  { rewrite Hh1, lookup_insert_eq. eauto. }
  split; [done |]. split; [done |]. split; [done |]. split; [done |].
  eexists. split; [apply free_mem_manager_done; done |]. wsimpl.
  rewrite lookup_delete_ne by done.
  rewrite release_all_lookup_ne by done. done.
Qed.

(** ** After mm_free_all *)

(** [mm_free_all] called on its own, on a registry in good order that holds
    a record: it returns the number of records, and the manager is then of
    no use.  Its [head] still holds the address of the released first node,
    and [mm_find_in_list], [mm_free], a second [mm_free_all] and
    [free_mem_manager] all read that node. *)
Theorem manager_unusable_after_mm_free_all
  (fuel : nat) (m : ptr) (l : list record) (w : world) :
  valid w m l -> l <> [] ->
  (length l < fuel)%nat -> Z.of_nat (length l) <= INT_MAX ->
  exists w',
    mm_free_all fuel m w = Done (Z.of_nat (length l)) w' /\
    forall (fuel' : nat) (mem : ptr),
      (0 < fuel')%nat ->
      mm_find_in_list fuel' m mem w' = Undefined /\
      mm_free fuel' m mem w' = Undefined /\
      mm_free_all fuel' m w' = Undefined /\
      free_mem_manager fuel' m w' = Undefined.
Proof.
  intros [Hreg Hlive] Hne Hf Hmax.
  pose proof (mm_free_all_done _ _ _ _ Hreg Hlive Hf Hmax) as Hrun.
  pose proof (blocks_live_not_manager _ _ _ Hlive) as Hma.
  destruct Hreg as (head & (Hm & Hh & _ & _ & Hfa) & Hs & Hnm).
  destruct l as [| [q a] l]; [done |].
  unfold lseg in Hs. simpl in Hs. destruct Hs as (-> & Hq & _).
  set (h' := release_all (heap w) ((q, a) :: l)) in *.
  assert (h' !! q = None) as Hdead.
  { apply release_all_dead. left. rewrite fmap_cons. apply elem_of_cons.
    auto. }
  assert (forall f, field_at h' m f = field_at (heap w) m f) as Hman.
  { intros f. apply field_at_agree. apply release_all_lookup_ne; done. }
  eexists. split; [exact Hrun |].
  intros fuel' mem Hf'. destruct fuel' as [| fuel']; [lia |].
  assert (mm_free_all (S fuel') m
            (set_heap h' (set_frees (frees w ++ release_order ((q, a) :: l)) w))
          = Undefined) as Hall.
  { unfold mm_free_all.
    erewrite bind_done;
      [| apply load_ptr_done; wsimpl; rewrite Hman; exact Hh].
    cbn [mm_free_recurse].
    destruct (Z.eqb_spec q NULL) as [Heq0 | _]; [done |].
    do 2 (rewrite bind_undefined; [done |]).
    apply load_ptr_dead. wsimpl. done. }
  split; [| split; [| split; [exact Hall |]]].
  - unfold mm_find_in_list.
    erewrite bind_done;
      [| apply load_ptr_done; wsimpl; rewrite Hman; exact Hh].
    cbn [mm_find_loop].
    destruct (Z.eqb_spec q NULL) as [Heq0 | _]; [done |].
    rewrite bind_undefined; [done |]. apply load_ptr_dead. wsimpl. done.
  - unfold mm_free.
    erewrite bind_done;
      [| apply load_ptr_done; wsimpl; rewrite Hman; exact Hh].
    rewrite bind_undefined; [done |].
    cbn [mm_free_loop].
    destruct (Z.eqb_spec q NULL) as [Heq0 | _]; [done |].
    rewrite bind_undefined; [done |]. apply load_ptr_dead. wsimpl. done.
  - unfold free_mem_manager.
    destruct (Z.eqb_spec m NULL) as [Heq0 | _]; [done |].
    erewrite bind_done;
      [| apply load_fn_done; wsimpl; rewrite Hman; exact Hfa].
    cbn [call_mm_free_all]. rewrite bind_undefined; [done |]. exact Hall.
Qed.

(** * The claims on concrete runs *)

(** Side conditions on a concrete world, decided by evaluation. *)
Ltac by_run := vm_compute; reflexivity.
Ltac concrete_registry := apply registryb_sound; by_run.
Ltac concrete_blocks := apply blocks_liveb_sound; by_run.
Ltac concrete_bound := unfold two_records, INT_MAX; simpl; lia.

(** The records of the example worlds. *)
Lemma w_dup_registry : registry (heap w_dup) 100 [(300, 200); (400, 200)].
Proof. apply registryb_sound. vm_compute. reflexivity. Qed.

Lemma w_block_registry : registry (heap w_block) 100 [].
Proof. apply registryb_sound. vm_compute. reflexivity. Qed.

(** C2 fails where two records hold the address: [mm_free] succeeds on the
    block 200, and [mm_find_in_list] still finds a record for it, the one at
    node 400. *)
Lemma mm_free_then_find_still_finds :
  registry (heap w_dup) 100 [(300, 200); (400, 200)] /\
  exists w',
    mm_free 8 100 200 w_dup = Done 0 w' /\
    mm_find_in_list 8 100 200 w' = Done 400 w' /\
    400 <> NULL.
Proof.
  split; [exact w_dup_registry |].
  eexists. split; [vm_compute; reflexivity |].
  split; [vm_compute; reflexivity | done].
Qed.

(** C3 fails where two records hold the address: [mm_realloc] moves the
    block 200 to 500 and writes 500 in the first record; the record at node
    400 still holds 200 and [mm_find_in_list] finds it. *)
Lemma mm_realloc_then_find_old_still_finds :
  registry (heap w_dup) 100 [(300, 200); (400, 200)] /\
  exists w',
    mm_realloc 8 200 256 100 "main.c" "main" 12 w_dup = Done 500 w' /\
    500 <> 200 /\
    registry (heap w') 100 [(300, 500); (400, 200)] /\
    mm_find_in_list 8 100 200 w' = Done 400 w' /\
    400 <> NULL.
Proof.
  split; [exact w_dup_registry |].
  eexists. split; [vm_compute; reflexivity |].
  split; [done |]. split; [apply registryb_sound; vm_compute; reflexivity |].
  split; [vm_compute; reflexivity | done].
Qed.

(** C9 fails on the sequence of inserts 200, 200 into an empty registry:
    both succeed, and the two records hold the same address. *)
Lemma two_inserts_share_an_address :
  registry (heap w_block) 100 [] /\
  exists w',
    mm_add_all 4 100 [200; 200] w_block = Done tt w' /\
    registry (heap w') 100 [(300, 200); (400, 200)] /\
    ~ NoDup [(300, 200); (400, 200)].*2.
Proof.
  split; [exact w_block_registry |].
  eexists. split; [vm_compute; reflexivity |].
  split; [apply registryb_sound; vm_compute; reflexivity |].
  intros H. apply NoDup_cons in H as [H _]. apply H.
  apply elem_of_cons. auto.
Qed.

(** [mm_free_all] twice on the two records of [w_two]: 2, then a read of
    the released node 300. *)
Lemma mm_free_all_leaves_head_witness :
  exists w',
    mm_free_all 3 100 w_two = Done 2 w' /\
    field_at (heap w') 100 f_head = Some (VPtr 300) /\
    heap w' !! 300 = None /\
    ~ registry (heap w') 100 [] /\
    mm_free_all 3 100 w' = Undefined.
Proof.
  destruct (mm_free_all_leaves_head 3 100 two_records w_two)
    as (w' & Hrun & Hdead & Hhead & _ & Hagain);
    [concrete_registry | concrete_blocks | concrete_bound | concrete_bound |].
  exists w'. split; [exact Hrun |]. split; [rewrite Hhead; by_run |].
  split; [apply Hdead; left; apply elem_of_cons; auto |].
  apply Hagain. discriminate.
Defined.

(** [mm_free] of the block 200 of [w_two], and of an address it does not
    hold. *)
Lemma mm_free_releases_first_match_witness :
  mm_free 3 100 900 w_two = Done (-1) w_two /\
  exists w',
    mm_free 3 100 200 w_two = Done 0 w' /\
    registry (heap w') 100 [(500, 400)] /\
    frees w' = [200; 300] /\
    mm_find_in_list 3 100 200 w' = Done NULL w'.
Proof.
  destruct (mm_free_releases_first_match 3 100 900 two_records w_two)
    as [Habsent _]; [concrete_registry | concrete_bound |].
  destruct (mm_free_releases_first_match 3 100 200 two_records w_two)
    as [_ Hpresent]; [concrete_registry | concrete_bound |].
  split.
  - apply Habsent. vm_compute. intros H.
    repeat (apply elem_of_cons in H as [H | H]; [discriminate |]).
    apply elem_of_nil in H. exact H.
  - destruct Hpresent as (w' & Hrun & Hreg & Hfr & _ & _ & Hfind & _).
    + apply elem_of_cons. left. reflexivity.
    + discriminate.
    + vm_compute. eauto.
    + discriminate.
    + vm_compute. intros H.
      repeat (apply elem_of_cons in H as [H | H]; [discriminate |]).
      apply elem_of_nil in H. exact H.
    + exists w'. split; [exact Hrun |]. split; [exact Hreg |].
      split; [exact Hfr | exact Hfind].
Defined.

(** [mm_realloc] of the block 200 of [w_two], which moves to 600. *)
Lemma mm_realloc_retargets_first_match_witness :
  exists w',
    mm_realloc 3 200 256 100 "main.c" "main" 12 w_two = Done 600 w' /\
    registry (heap w') 100 [(300, 600); (500, 400)] /\
    mm_find_in_list 3 100 200 w' = Done NULL w' /\
    exists n, n <> NULL /\ mm_find_in_list 3 100 600 w' = Done n w'.
Proof.
  destruct (mm_realloc_retargets_first_match
              3 200 256 100 "main.c" "main" 12 two_records w_two 600
              (world_of (realloc 200 256 w_two)))
    as (w' & Hrun & _ & Hreg & _ & _ & Hnew & Hold & _).
  - concrete_registry.
  - concrete_bound.
  - discriminate.
  - vm_compute. intros H.
    repeat (apply elem_of_cons in H as [H | H]; [discriminate |]).
    apply elem_of_nil in H. exact H.
  - by_run.
  - discriminate.
  - exists w'. split; [exact Hrun |]. split; [exact Hreg |].
    split; [exact Hold |]. apply Hnew. apply elem_of_cons. left. reflexivity.
Defined.

(** [mm_realloc] of the block 200 when the allocator has nothing to offer:
    for 256 bytes the request is refused and every allocation is as it was;
    for 0 bytes the block is released by [realloc], and the registry still
    holds its two records. *)
Lemma mm_realloc_failure_keeps_registry_witness :
  (exists w',
     mm_realloc 3 200 256 100 "main.c" "main" 12 w_exhausted = Done NULL w' /\
     stderr w' = [Diag "main.c" "main" 12 ENOMEM] /\
     frees w' = [] /\
     heap w' = heap w_exhausted /\
     registry (heap w') 100 two_records) /\
  (exists w',
     mm_realloc 3 200 0 100 "main.c" "main" 12 w_exhausted = Done NULL w' /\
     stderr w' = [Diag "main.c" "main" 12 0] /\
     frees w' = [] /\
     heap w' !! 200 = None /\
     registry (heap w') 100 two_records).
Proof.
  split.
  - destruct (mm_realloc_failure_keeps_registry
                3 200 256 100 "main.c" "main" 12 w_exhausted
                (world_of (realloc 200 256 w_exhausted)))
      as (w' & Hrun & Hst & Hfr & _ & Hreg & Hheap); [by_run |].
    exists w'. split; [exact Hrun |]. split; [exact Hst |].
    split; [exact Hfr |]. split; [apply Hheap; left; discriminate |].
    apply Hreg; [concrete_registry | discriminate |].
    vm_compute. intros H.
    repeat (apply elem_of_cons in H as [H | H]; [discriminate |]).
    apply elem_of_nil in H. exact H.
  - destruct (mm_realloc_failure_keeps_registry
                3 200 0 100 "main.c" "main" 12 w_exhausted
                (world_of (realloc 200 0 w_exhausted)))
      as (w' & Hrun & Hst & Hfr & Hheap & Hreg & _); [by_run |].
    exists w'. split; [exact Hrun |]. split; [exact Hst |].
    split; [exact Hfr |]. split; [rewrite Hheap; by_run |].
    apply Hreg; [concrete_registry | discriminate |].
    vm_compute. intros H.
    repeat (apply elem_of_cons in H as [H | H]; [discriminate |]).
    apply elem_of_nil in H. exact H.
Defined.

(** [mm_malloc] and [mm_calloc] when the allocator has nothing to offer. *)
Lemma allocation_failure_reported_witness :
  (exists w',
     mm_malloc 3 64 100 "main.c" "main" 12 w_exhausted = Done NULL w' /\
     stderr w' = [Diag "main.c" "main" 12 ENOMEM] /\
     heap w' = heap w_exhausted) /\
  (exists w',
     mm_calloc 3 10 4 100 "main.c" "main" 13 w_exhausted = Done NULL w' /\
     stderr w' = [Diag "main.c" "main" 13 ENOMEM] /\
     heap w' = heap w_exhausted).
Proof.
  destruct (allocation_failure_reported
              3 64 10 100 "main.c" "main" 12 w_exhausted)
    as (Hmalloc & _).
  destruct (allocation_failure_reported
              3 4 10 100 "main.c" "main" 13 w_exhausted)
    as (_ & Hcalloc & _).
  split.
  - destruct (Hmalloc (world_of (malloc 64 w_exhausted)))
      as (w' & Hrun & Hst & Hheap & _); [by_run |].
    exists w'. split; [exact Hrun |]. split; [exact Hst | exact Hheap].
  - destruct (Hcalloc (world_of (calloc 10 4 w_exhausted)))
      as (w' & Hrun & Hst & Hheap & _); [by_run |].
    exists w'. split; [exact Hrun |]. split; [exact Hst | exact Hheap].
Defined.

(** [mm_add] of the address 900 to the two records of [w_two]: the new
    node is at 600. *)
Lemma mm_add_appends_witness :
  exists w',
    mm_add 2 100 900 w_two = Done 900 w' /\
    registry (heap w') 100 [(300, 200); (500, 400); (600, 900)].
Proof.
  destruct (mm_add_appends 2 100 900 two_records w_two 600
              (world_of (malloc sizeof_memory_address w_two)))
    as [Hok _]; [concrete_registry | concrete_bound | by_run |].
  destruct Hok as (w' & Hrun & Hreg & _); [discriminate |].
  exists w'. split; [exact Hrun | exact Hreg].
Defined.

(** [free_mem_manager] on [w_two]: the two records, last first, then the
    manager. *)
Lemma free_mem_manager_releases_everything_witness :
  free_mem_manager 3 NULL w_two = Done (-1) w_two /\
  exists w',
    free_mem_manager 3 100 w_two = Done 0 w' /\
    frees w' = [400; 500; 200; 300; 100] /\
    heap w' !! 100 = None.
Proof.
  destruct (free_mem_manager_releases_everything 3 w_two) as [Hnull Hvalid].
  split; [exact Hnull |].
  destruct (Hvalid 100 two_records)
    as (w' & Hrun & Hfr & Hdead & _);
    [concrete_registry | concrete_blocks | concrete_bound | concrete_bound |].
  exists w'. split; [exact Hrun |]. split; [exact Hfr | exact Hdead].
Defined.

(** [mm_malloc] on [w_last]: the block is allocated at 600, the node is
    refused; [mm_free_all] then releases the two records and not 600. *)
Lemma insert_failure_is_silent_witness :
  mm_malloc 3 64 100 "main.c" "main" 12 w_last
  = Done 600 (world_of (mm_malloc 3 64 100 "main.c" "main" 12 w_last)) /\
  stderr (world_of (mm_malloc 3 64 100 "main.c" "main" 12 w_last)) = [] /\
  registry (heap (world_of (mm_malloc 3 64 100 "main.c" "main" 12 w_last)))
           100 two_records /\
  exists w3,
    mm_free_all 3 100 (world_of (mm_malloc 3 64 100 "main.c" "main" 12 w_last))
    = Done 2 w3 /\
    is_Some (heap w3 !! 600) /\ frees w3 = [400; 500; 200; 300].
Proof.
  destruct (insert_failure_is_silent
              3 64 0 100 "main.c" "main" 12 two_records w_last)
    as [Hmalloc _];
    [concrete_registry | concrete_blocks | concrete_bound | concrete_bound |].
  destruct (Hmalloc 600 (world_of (malloc 64 w_last))
                    (world_of (mm_malloc 3 64 100 "main.c" "main" 12 w_last)))
    as (Hrun & Hst & Hreg & _ & _ & w3 & Hall & Hlive & Hfr & _);
    [by_run | discriminate | by_run |].
  split; [exact Hrun |]. split; [exact Hst |]. split; [exact Hreg |].
  exists w3. split; [exact Hall |]. split; [exact Hlive | exact Hfr].
Defined.

(** The inserts 200, 900 into the empty registry of [w_block]. *)
Lemma distinct_inserts_stay_distinct_witness :
  exists w' l',
    mm_add_all 2 100 [200; 900] w_block = Done tt w' /\
    registry (heap w') 100 l' /\ [] `prefix_of` l' /\ NoDup l'.*2.
Proof.
  apply (distinct_inserts_stay_distinct 2 100 [200; 900] [] w_block).
  - concrete_registry.
  - simpl. apply NoDup_cons. split.
    + intros H. apply elem_of_cons in H as [H | H]; [discriminate |].
      apply elem_of_nil in H. exact H.
    + apply NoDup_cons. split; [apply not_elem_of_nil | apply NoDup_nil_2].
  - simpl. lia.
Defined.

(** [mm_add] of the block 200 of [w_two] a second time. *)
Lemma mm_add_accepts_duplicates_witness :
  exists w',
    mm_add 4 100 200 w_two = Done 200 w' /\
    registry (heap w') 100 [(300, 200); (500, 400); (600, 200)] /\
    mm_find_in_list 4 100 200 w' = Done 300 w' /\
    exists w'',
      mm_free 4 100 200 w' = Done 0 w'' /\
      registry (heap w'') 100 [(500, 400); (600, 200)].
Proof.
  destruct (mm_add_accepts_duplicates 4 100 200 two_records w_two 600
              (world_of (malloc sizeof_memory_address w_two)))
    as (w' & Hrun & Hreg & _ & _ & Hfind & Hfree).
  - concrete_registry.
  - unfold two_records. simpl. lia.
  - apply elem_of_cons. left. reflexivity.
  - by_run.
  - discriminate.
  - exists w'. split; [exact Hrun |]. split; [exact Hreg |].
    split; [exact Hfind |].
    destruct Hfree as (w'' & Hrun' & Hreg' & _).
    + discriminate.
    + vm_compute. eauto.
    + discriminate.
    + vm_compute. intros H.
      repeat (apply elem_of_cons in H as [H | H]; [discriminate |]).
      apply elem_of_nil in H. exact H.
    + exists w''. split; [exact Hrun' | exact Hreg'].
Defined.

(** [init_mem_manager] when the allocator answers 100. *)
Lemma init_mem_manager_empty_registry_witness :
  exists w',
    init_mem_manager (world0 [100]) = Done 100 w' /\
    registry (heap w') 100 [].
Proof.
  destruct (init_mem_manager_empty_registry (world0 [100]) 100
              (world_of (malloc sizeof_memory_manager (world0 [100]))))
    as [Hok _]; [by_run |].
  destruct Hok as (w' & Hrun & Hreg & _); [discriminate |].
  exists w'. split; [exact Hrun | exact Hreg].
Defined.

(** [mm_malloc] on [w_two]: the block at 600, its node at 700. *)
Lemma mm_malloc_tracks_block_witness :
  exists w',
    mm_malloc 2 256 100 "main.c" "main" 12 w_two = Done 600 w' /\
    registry (heap w') 100 [(300, 200); (500, 400); (700, 600)] /\
    blocks_live (heap w') 100 [(300, 200); (500, 400); (700, 600)].
Proof.
  destruct (mm_malloc_tracks_block
              2 256 100 "main.c" "main" 12 two_records w_two
              600 (world_of (malloc 256 w_two))
              700 (world_of (malloc sizeof_memory_address
                                    (world_of (malloc 256 w_two)))))
    as (w' & Hrun & Hreg & Hlive & _).
  - concrete_registry.
  - concrete_blocks.
  - concrete_bound.
  - by_run.
  - discriminate.
  - by_run.
  - discriminate.
  - exists w'. split; [exact Hrun |]. split; [exact Hreg | exact Hlive].
Defined.

(** Scenario 1: both calls succeed, and what is freed is the first block
    and its node, then the second block and its node, then the manager. *)
Example scenario_1_run :
  exists w',
    scenario_1 (world0 [100; 200; 300; 400; 500]) = Done (0, 0) w' /\
    frees w' = [200; 300; 400; 500; 100] /\ heap w' = ∅.
Proof. eexists. split; [by_run |]. split; by_run. Qed.

(** Scenario 2: after the block moved from 200 to 400, no record holds the
    old address and the record at node 300 holds the new one. *)
Example scenario_2_run :
  exists w',
    scenario_2 (world0 [100; 200; 300; 400]) = Done (NULL, 300) w' /\
    registry (heap w') 100 [(300, 400)].
Proof. eexists. split; [by_run |]. concrete_registry. Qed.

(** Scenario 3: an untracked [mm_malloc] under exhaustion returns [NULL] and
    prints one line, with the caller's origin and [ENOMEM]. *)
Example scenario_3_run :
  exists w',
    mm_malloc 4 4096 NULL "main.c" "main" 10 (world0 []) = Done NULL w' /\
    stderr w' = [Diag "main.c" "main" 10 ENOMEM] /\ heap w' = ∅.
Proof. eexists. split; [by_run |]. split; by_run. Qed.

(** Scenario 4: [mm_free] of an address that was never inserted. *)
Example scenario_4_run : mm_free 4 100 900 w_two = Done (-1) w_two.
Proof. by_run. Qed.

(** * Beyond the claims, on concrete runs *)

Ltac concrete_valid := split; [concrete_registry | concrete_blocks].
Ltac concrete_member :=
  vm_compute; repeat first [apply list_elem_of_here | apply list_elem_of_further].
Ltac concrete_absent :=
  vm_compute; intros H;
  repeat (apply elem_of_cons in H as [H | H]; [discriminate |]);
  apply elem_of_nil in H; exact H.

(** [mm_find_in_list] for the block 400 of [w_two]. *)
Lemma mm_find_in_list_locates_witness :
  exists ma,
    mm_find_in_list 3 100 400 w_two = Done ma w_two /\ ma <> NULL /\
    field_at (heap w_two) ma f_addr = Some (VPtr 400).
Proof.
  destruct (mm_find_in_list_locates 3 100 400 two_records w_two)
    as (ma & Hrun & Hiff & Hfound); [concrete_registry | concrete_bound |].
  assert (ma <> NULL) as Hne.
  { intros Heq. apply Hiff in Heq. apply Heq. concrete_member. }
  exists ma. split; [exact Hrun |]. split; [exact Hne |].
  destruct (Hfound Hne) as [Ha _]. exact Ha.
Defined.

(** [mm_add] of 900 on [w_two], then [mm_find_in_list] for 900. *)
Lemma mm_add_then_find_witness :
  exists w',
    mm_add 4 100 900 w_two = Done 900 w' /\
    mm_find_in_list 4 100 900 w' = Done 600 w'.
Proof.
  destruct (mm_add_then_find 4 100 900 two_records w_two 600
              (world_of (malloc sizeof_memory_address w_two)))
    as (w' & Hrun & Hnew & _);
    [concrete_registry | unfold two_records; simpl; lia | by_run
    | discriminate |].
  exists w'. split; [exact Hrun |]. apply Hnew. concrete_absent.
Defined.

(** [mm_add] of [NULL] on [w_two]. *)
Lemma mm_add_null_result_is_ambiguous_witness :
  exists w',
    mm_add 2 100 NULL w_two = Done NULL w' /\
    registry (heap w') 100 [(300, 200); (500, 400); (600, NULL)].
Proof.
  destruct (mm_add_null_result_is_ambiguous 2 100 two_records w_two 600
              (world_of (malloc sizeof_memory_address w_two)))
    as (w' & Hrun & Hok & _);
    [concrete_registry | concrete_bound | by_run |].
  exists w'. split; [exact Hrun |]. apply Hok. discriminate.
Defined.

(** [mm_calloc] on [w_two]: the block at 600, its node at 700. *)
Lemma mm_calloc_tracks_block_witness :
  exists w',
    mm_calloc 2 10 4 100 "main.c" "main" 12 w_two = Done 600 w' /\
    valid w' 100 [(300, 200); (500, 400); (700, 600)].
Proof.
  destruct (mm_calloc_tracks_block
              2 10 4 100 "main.c" "main" 12 two_records w_two
              600 (world_of (calloc 10 4 w_two))
              700 (world_of (malloc sizeof_memory_address
                                    (world_of (calloc 10 4 w_two)))))
    as (w' & Hrun & Hv & _);
    [concrete_valid | concrete_bound | by_run | discriminate | by_run
    | discriminate |].
  exists w'. split; [exact Hrun | exact Hv].
Defined.

(** [mm_free] of the block 200 of [w_two]. *)
Lemma mm_free_keeps_registry_valid_witness :
  exists w',
    mm_free 3 100 200 w_two = Done 0 w' /\
    valid w' 100 [(500, 400)] /\
    mm_find_in_list 3 100 200 w' = Done NULL w'.
Proof.
  destruct (mm_free_keeps_registry_valid 3 100 200 two_records w_two)
    as (w' & Hrun & Hv & _ & _ & _ & _ & Hfind);
    [concrete_valid | concrete_bound | concrete_member |].
  exists w'. split; [exact Hrun |]. split; [exact Hv | exact Hfind].
Defined.

(** [mm_realloc] of the block 200 of [w_two]; and of the same block for the
    size 0 when the allocator has nothing to offer: the block is released,
    its record stays, and [mm_free] of it is undefined. *)
Lemma mm_realloc_keeps_registry_valid_witness :
  (exists q w',
     mm_realloc 3 200 256 100 "main.c" "main" 12 w_two = Done q w' /\
     (q <> NULL -> valid w' 100 (retarget 200 q two_records))) /\
  (exists w',
     mm_realloc 3 200 0 100 "main.c" "main" 12 w_exhausted = Done NULL w' /\
     registry (heap w') 100 two_records /\
     mm_free 3 100 200 w' = Undefined).
Proof.
  split.
  - destruct (mm_realloc_keeps_registry_valid
                3 200 256 100 "main.c" "main" 12 two_records w_two)
      as (q & w' & Hrun & _ & Hok);
      [concrete_valid | concrete_bound | concrete_member |].
    exists q, w'. split; [exact Hrun |]. intros Hq.
    destruct (Hok Hq) as [Hv _]. exact Hv.
  - destruct (mm_realloc_keeps_registry_valid
                3 200 0 100 "main.c" "main" 12 two_records w_exhausted)
      as (q & w' & Hrun & Hnull & _);
      [concrete_valid | concrete_bound | concrete_member |].
    assert (mm_realloc 3 200 0 100 "main.c" "main" 12 w_exhausted
            = Done NULL
                (world_of (mm_realloc 3 200 0 100 "main.c" "main" 12
                                      w_exhausted))) as Hrun' by by_run.
    rewrite Hrun' in Hrun. injection Hrun as <- <-.
    destruct (Hnull eq_refl) as (Hreg & _ & _ & Hdead).
    eexists. split; [exact Hrun' |]. split; [exact Hreg |].
    apply Hdead. by_run.
Defined.

(** [free_mem_manager] on [w_two]. *)
Lemma free_mem_manager_frees_each_once_witness :
  exists w' released,
    free_mem_manager 3 100 w_two = Done 0 w' /\
    frees w' = released /\ NoDup released /\ 400 ∈ released.
Proof.
  destruct (free_mem_manager_frees_each_once 3 100 two_records w_two)
    as (w' & released & Hrun & Hfr & Hnd & Hmem & _);
    [concrete_valid | concrete_bound | concrete_bound |].
  exists w', released. split; [exact Hrun |]. split; [exact Hfr |].
  split; [exact Hnd |]. apply Hmem. right. right. concrete_member.
Defined.

(** [mm_malloc] on [w_two], then [mm_free] of the block it returned. *)
Lemma mm_malloc_then_mm_free_round_trip_witness :
  exists w' w'',
    mm_malloc 4 256 100 "main.c" "main" 12 w_two = Done 600 w' /\
    mm_free 4 100 600 w' = Done 0 w'' /\
    valid w'' 100 two_records.
Proof.
  destruct (mm_malloc_then_mm_free_round_trip
              4 256 100 "main.c" "main" 12 two_records w_two
              600 (world_of (malloc 256 w_two))
              700 (world_of (malloc sizeof_memory_address
                                    (world_of (malloc 256 w_two)))))
    as (w' & w'' & Hrun & Hfree & Hv & _);
    [concrete_valid | unfold two_records; simpl; lia | by_run | discriminate
    | by_run | discriminate |].
  exists w', w''. split; [exact Hrun |]. split; [exact Hfree | exact Hv].
Defined.

(** [mm_realloc] of the block 200 of [w_two] without the manager: the block
    moves to 600. *)
Lemma untracked_realloc_leaves_stale_record_witness :
  mm_realloc 3 200 256 NULL "main.c" "main" 12 w_two
  = Done 600 (world_of (realloc 200 256 w_two)) /\
  registry (heap (world_of (realloc 200 256 w_two))) 100 two_records /\
  mm_free 3 100 200 (world_of (realloc 200 256 w_two)) = Undefined.
Proof.
  destruct (untracked_realloc_leaves_stale_record
              3 200 256 100 "main.c" "main" 12 two_records w_two
              600 (world_of (realloc 200 256 w_two)))
    as (Hrun & Hreg & _ & Hfree);
    [concrete_valid | concrete_bound | concrete_member | by_run
    | discriminate | discriminate |].
  split; [exact Hrun |]. split; [exact Hreg | exact Hfree].
Defined.

(** One call of a client on [w_two], then [free_mem_manager]. *)
Lemma client_steps_keep_registry_valid_witness :
  exists l',
    valid (world_of (mm_malloc 2 256 100 "main.c" "main" 12 w_two)) 100 l'.
Proof.
  destruct (client_steps_keep_registry_valid 100 two_records w_two
              (world_of (mm_malloc 2 256 100 "main.c" "main" 12 w_two)))
    as (l' & Hv & _).
  - concrete_valid.
  - apply rtc_once.
    apply (step_malloc 100 w_two _ 2 256 "main.c" "main" 12 600 two_records);
      [concrete_registry | concrete_bound | by_run].
  - exists l'. exact Hv.
Defined.

(** A tracker created and destroyed when the allocator answers 100. *)
Lemma init_then_destroy_restores_heap_witness :
  exists w' w'',
    init_mem_manager (world0 [100]) = Done 100 w' /\
    free_mem_manager 1 100 w' = Done 0 w'' /\
    heap w'' = ∅ /\ frees w'' = [100].
Proof.
  destruct (init_then_destroy_restores_heap 1 (world0 [100]) 100
              (world_of (malloc sizeof_memory_manager (world0 [100]))))
    as (w' & w'' & Hinit & Hrun & Hheap & Hfr & _);
    [by_run | discriminate | lia |].
  exists w', w''. split; [exact Hinit |]. split; [exact Hrun |].
  split; [exact Hheap | exact Hfr].
Defined.

(** [mm_realloc] of [NULL] on [w_two]: the block is at 600. *)
Lemma mm_realloc_of_null_is_untracked_witness :
  mm_realloc 3 NULL 64 100 "main.c" "main" 12 w_two
  = Done 600 (world_of (realloc NULL 64 w_two)) /\
  exists w2,
    free_mem_manager 3 100 (world_of (realloc NULL 64 w_two)) = Done 0 w2 /\
    is_Some (heap w2 !! 600).
Proof.
  destruct (mm_realloc_of_null_is_untracked
              3 64 100 "main.c" "main" 12 two_records w_two
              600 (world_of (realloc NULL 64 w_two)))
    as (Hrun & _ & _ & _ & Hdestroy);
    [concrete_valid | concrete_bound | concrete_bound | by_run
    | discriminate |].
  split; [exact Hrun | exact Hdestroy].
Defined.

(** [mm_free_all] on [w_two], then [free_mem_manager]. *)
Lemma manager_unusable_after_mm_free_all_witness :
  exists w',
    mm_free_all 3 100 w_two = Done 2 w' /\
    free_mem_manager 3 100 w' = Undefined /\
    mm_find_in_list 3 100 200 w' = Undefined.
Proof.
  destruct (manager_unusable_after_mm_free_all 3 100 two_records w_two)
    as (w' & Hrun & Hafter);
    [concrete_valid | discriminate | concrete_bound | concrete_bound |].
  exists w'. split; [exact Hrun |].
  destruct (Hafter 3%nat 200) as (Hfind & _ & _ & Hdestroy); [lia |].
  split; [exact Hdestroy | exact Hfind].
Defined.
